(** * enhanced_visualizations.py: the height normaliser and the per-position
      aggregates

    A shallow embedding of the two computational parts of
    [enhanced_visualizations.py]:

    - [height_to_inches], the function applied to every cell of the
      [height] column;
    - the statistics that [create_player_visualizations] derives from the
      table before plotting: the series [heights] with its mean, minimum
      and maximum, and the frames [height_by_pos] and [weight_by_pos];
    - the rest of what the module computes from the table: the figures
      of the height distribution chart, the frequency tables of charts
      3 and 4, and the positions of the bar labels.

    Modelling conventions.

    - A Python [str] is a Rocq [string]; the character with code [n]
      stands for the code point [n] (0..255).
    - A Python [int] is a [Z].  A finite [float] is given by its exact
      value in [Q], and [float('nan')] is a value of its own.  Means and
      variances are computed exactly: binary64 rounding, overflow,
      underflow and infinities are outside the model, and so are whole
      numbers too large for a float64 column.  Nothing below is stated
      that depends on how a quotient or a sum is rounded.
    - Raising is explicit: a computation yields [Returned v] or
      [Raised e], and [try ... except Exception] is [try_except].
    - A numeric pandas column is a [list (option Q)], [None] being NaN. *)

From Stdlib Require Import ZArith QArith Qminmax List String Ascii Bool Lia Lqa.
From Stdlib Require Import Sorting.Sorted OrderedTypeEx Permutation.
Import ListNotations.

Local Open Scope Z_scope.

(* ================================================================== *)
(** ** Python: exceptions, strings, [int] *)
(* ================================================================== *)

Module Py.

Inductive exn := ValueError | TypeError.

Inductive outcome (A : Type) :=
| Returned (a : A)
| Raised (e : exn).
Arguments Returned {A} a.
Arguments Raised {A} e.

Definition ret {A} (a : A) : outcome A := Returned a.

Definition bind {A B} (m : outcome A) (k : A -> outcome B) : outcome B :=
  match m with
  | Returned a => k a
  | Raised e => Raised e
  end.

(** [try: m except Exception: handler] *)
Definition try_except {A} (m : outcome A) (handler : exn -> outcome A)
  : outcome A :=
  match m with
  | Returned a => Returned a
  | Raised e => handler e
  end.

(** [c in s] for a one-character [c]. *)
Fixpoint contains (c : ascii) (s : string) : bool :=
  match s with
  | EmptyString => false
  | String d r => Ascii.eqb d c || contains c r
  end.

(** [s.split(sep)] for a one-character separator: the pieces between
    the occurrences of [sep], empty pieces kept. *)
Fixpoint split (sep : ascii) (s : string) : list string :=
  match s with
  | EmptyString => [EmptyString]
  | String c r =>
      if Ascii.eqb c sep then EmptyString :: split sep r
      else match split sep r with
           | p :: ps => String c p :: ps
           | [] => [String c EmptyString]
           end
  end.

(** [a, b = parts]: exactly two items, otherwise [ValueError]. *)
Definition unpack2 {A} (parts : list A) : outcome (A * A) :=
  match parts with
  | [a; b] => Returned (a, b)
  | _ => Raised ValueError
  end.

(** White space as [int] sees it: TAB, LF, VT, FF, CR, SPACE, and NEL
    and NBSP, which [int] turns into a space first. *)
Definition is_space (c : ascii) : bool :=
  let n := N_of_ascii c in
  ((9 <=? n) && (n <=? 13) || (n =? 32) || (n =? 133) || (n =? 160))%N.

Definition digit_of (c : ascii) : option Z :=
  let n := N_of_ascii c in
  if ((48 <=? n) && (n <=? 57))%N then Some (Z.of_N n - 48) else None.

Fixpoint skip_spaces (s : string) : string :=
  match s with
  | String c r => if is_space c then skip_spaces r else s
  | EmptyString => s
  end.

(** The digits after the first one: a digit, or one underscore followed
    by a digit.  Stops at the first character that fits neither and
    hands back the value read, the number of digits read ([n] counts
    them, underscores left out) and what is left. *)
Fixpoint scan_digits (acc : Z) (n : N) (s : string) : Z * N * string :=
  match s with
  | String c r =>
      match digit_of c with
      | Some d => scan_digits (acc * 10 + d) (N.succ n) r
      | None =>
          if Ascii.eqb c "_" then
            match r with
            | String c' r' =>
                match digit_of c' with
                | Some d => scan_digits (acc * 10 + d) (N.succ n) r'
                | None => (acc, n, s)
                end
            | EmptyString => (acc, n, s)
            end
          else (acc, n, s)
      end
  | EmptyString => (acc, n, s)
  end.

(** [sys.get_int_max_str_digits()], as the interpreter starts. *)
Definition int_max_str_digits : N := 4300.

(** [int(s)] on a [str], base 10: optional white space, an optional
    sign, digits (single underscores allowed between digits), optional
    white space, end of string; anything else is a [ValueError].  So is
    a numeral of more than [int_max_str_digits] digits, leading zeros
    counted. *)
Definition int (s : string) : outcome Z :=
  let s1 := skip_spaces s in
  let '(neg, s2) :=
    match s1 with
    | String "+" r => (false, r)
    | String "-" r => (true, r)
    | _ => (false, s1)
    end in
  match s2 with
  | String c r =>
      match digit_of c with
      | Some d =>
          let '(v, n, rest) := scan_digits d 1 r in
          if (int_max_str_digits <? n)%N then Raised ValueError
          else
            match skip_spaces rest with
            | EmptyString => Returned (if neg then - v else v)
            | String _ _ => Raised ValueError
            end
      | None => Raised ValueError
      end
  | EmptyString => Raised ValueError
  end.

(** The decimal numeral of an [int], as [str(n)] writes it: the digits,
    most significant first, with a minus sign for a negative number. *)
Definition digit_char (d : N) : ascii := ascii_of_N (48 + d).

Fixpoint digits (fuel : nat) (n : N) : string :=
  match fuel with
  | O => String (digit_char (n mod 10)) EmptyString
  | S fuel' =>
      if (n <? 10)%N then String (digit_char n) EmptyString
      else (digits fuel' (n / 10) ++ String (digit_char (n mod 10)) EmptyString)%string
  end.

Definition str_int (z : Z) : string :=
  let n := Z.abs_N z in
  let ds := digits (N.to_nat (N.log2 n)) n in
  if z <? 0 then String "-" ds else ds.

End Py.

Import Py.

Declare Scope py_scope.
Delimit Scope py_scope with py.
Notation "x <- m ;; k" := (bind m (fun x => k))
  (at level 61, m at next level, right associativity) : py_scope.
Notation "' pat <- m ;; k" := (bind m (fun x => match x with pat => k end))
  (at level 61, pat pattern, m at next level, right associativity) : py_scope.
Local Open Scope py_scope.
Local Open Scope string_scope.

(* ================================================================== *)
(** ** The height normaliser *)
(* ================================================================== *)

(** What a cell of the table can hold: nothing, a number, or text. *)
Inductive pyval :=
| VNone                 (* None *)
| VNaN                  (* float('nan'), how pandas stores an empty cell *)
| VInt (z : Z)          (* an int *)
| VFloat (q : Q)        (* a finite float *)
| VStr (s : string).    (* a str *)

(** [pd.isna(h)] on a scalar. *)
Definition isna (h : pyval) : bool :=
  match h with
  | VNone | VNaN => true
  | _ => false
  end.

(** [isinstance(h, (int, float))]; NaN is a float. *)
Definition isinstance_int_float (h : pyval) : bool :=
  match h with
  | VInt _ | VFloat _ | VNaN => true
  | _ => false
  end.

(** Lines 30-43. *)
Definition height_to_inches (h : pyval) : outcome pyval :=
  if isna h then ret VNone
  else if isinstance_int_float h then ret h
  else
    match h with
    | VStr h =>                              (* h = str(h) *)
        if negb (contains "-" h) then ret VNone
        else
          try_except
            ('(feet, inches) <- unpack2 (split "-" h) ;;
             f <- int feet ;;
             i <- int inches ;;
             ret (VInt (f * 12 + i)))
            (fun _ => ret VNone)
    | _ => ret h      (* no such value: it is null or a number *)
    end.

(* ================================================================== *)
(** ** pandas: columns, statistics, groupby, sorting *)
(* ================================================================== *)

Module Pandas.

(** A float64 column; [None] is NaN. *)
Definition series := list (option Q).

(** [Series.dropna()] *)
Fixpoint dropna (s : series) : list Q :=
  match s with
  | [] => []
  | Some x :: r => x :: dropna r
  | None :: r => dropna r
  end.

Definition sum (xs : list Q) : Q := fold_right Qplus 0%Q xs.

Definition count (xs : list Q) : Q := inject_Z (Z.of_nat (List.length xs)).

(** [mean()]: NaN on an empty series. *)
Definition mean (xs : list Q) : option Q :=
  match xs with
  | [] => None
  | _ :: _ => Some (Qred (sum xs / count xs))
  end.

(** [min()] and [max()]: NaN on an empty series. *)
Definition min (xs : list Q) : option Q :=
  match xs with
  | [] => None
  | x :: r => Some (fold_left Qmin r x)
  end.

Definition max (xs : list Q) : option Q :=
  match xs with
  | [] => None
  | x :: r => Some (fold_left Qmax r x)
  end.

(** A cell of a [std] column: NaN, an exact number, or the square root
    of an exact number (kept symbolic). *)
Inductive stdev :=
| NaN
| Num (q : Q)
| Root (q : Q).

(** The sum of squared deviations from [m]. *)
Definition sum_sq (m : Q) (xs : list Q) : Q :=
  sum (map (fun x => (x - m) * (x - m))%Q xs).

(** [std()], with the default [ddof=1]: NaN unless there are at least
    two observations. *)
Definition std (xs : list Q) : stdev :=
  match xs with
  | [] | [_] => NaN
  | _ =>
      let m := (sum xs / count xs)%Q in
      Root (Qred (sum_sq m xs / (count xs - 1)))
  end.

(** [.fillna(0)] on a [std] cell. *)
Definition fillna0 (s : stdev) : stdev :=
  match s with
  | NaN => Num 0
  | _ => s
  end.

(** A two-column frame: the grouping column (NaN = [None]) and a value
    column. *)
Definition frame := list (option string * option Q).

(** [df.dropna(subset=[value])]: the rows whose value is present. *)
Fixpoint dropna_subset (df : frame) : list (option string * Q) :=
  match df with
  | [] => []
  | (k, Some x) :: r => (k, x) :: dropna_subset r
  | (_, None) :: r => dropna_subset r
  end.

(** The group keys: [groupby] has [sort=True] and [dropna=True], so the
    distinct labels in ascending order, rows without a label left
    out.  Labels are text; a column of digits only, which [read_csv]
    would read as numbers, is outside the model. *)
Fixpoint insert_key (k : string) (ks : list string) : list string :=
  match ks with
  | [] => [k]
  | k' :: r =>
      match String.compare k k' with
      | Lt => k :: ks
      | Eq => ks
      | Gt => k' :: insert_key k r
      end
  end.

Fixpoint group_keys (rows : list (option string * Q)) : list string :=
  match rows with
  | [] => []
  | (Some k, _) :: r => insert_key k (group_keys r)
  | (None, _) :: r => group_keys r
  end.

(** The values of the rows labelled [k], in table order. *)
Fixpoint members (k : string) (rows : list (option string * Q)) : list Q :=
  match rows with
  | [] => []
  | (Some k', x) :: r =>
      if String.eqb k' k then x :: members k r else members k r
  | (None, _) :: r => members k r
  end.

(** [.groupby(key)[value]]: one group per key. *)
Definition groupby (rows : list (option string * Q))
  : list (string * list Q) :=
  map (fun k => (k, members k rows)) (group_keys rows).

(** A row of the aggregated frame: the index label and the two
    columns. *)
Record agg := { label : string; agg_mean : option Q; agg_std : stdev }.

(** [.agg(['mean', 'std'])] *)
Definition agg_mean_std (groups : list (string * list Q)) : list agg :=
  map (fun g => {| label := fst g;
                   agg_mean := mean (snd g);
                   agg_std := std (snd g) |}) groups.

(** [a] may stand before [b] when sorting descending: NaN goes last. *)
Definition desc_before (a b : option Q) : bool :=
  match a, b with
  | _, None => true
  | None, Some _ => false
  | Some x, Some y => Qle_bool y x
  end.

(** [.sort_values('mean', ascending=False)].  The source leaves the
    algorithm to pandas (the default [kind='quicksort']), which does
    not fix the order among rows of equal mean.  This is one sort that
    does what is asked, an insertion sort, by which tables are
    evaluated here; what is stated of the order of the rows is stated
    for every sort that does what is asked ([sorts_mean_desc]). *)
Fixpoint insert_desc (a : agg) (l : list agg) : list agg :=
  match l with
  | [] => [a]
  | b :: r =>
      if desc_before (agg_mean a) (agg_mean b) then a :: l
      else b :: insert_desc a r
  end.

Fixpoint sort_values_mean_desc (l : list agg) : list agg :=
  match l with
  | [] => []
  | a :: r => insert_desc a (sort_values_mean_desc r)
  end.

(** [df['std'] = df['std'].fillna(0)] *)
Definition fillna_std (l : list agg) : list agg :=
  map (fun a => {| label := label a;
                   agg_mean := agg_mean a;
                   agg_std := fillna0 (agg_std a) |}) l.

End Pandas.

Import Pandas.

(* ================================================================== *)
(** ** create_player_visualizations: the numbers behind the charts *)
(* ================================================================== *)

(** A row of ACTIVE_PLAYERS_CLEANED.csv, as far as the aggregates read
    it.  An empty [position] cell is NaN, here [None]. *)
Record player := {
  height : pyval;
  weight : pyval;
  position : option string
}.

Definition table := list player.

(** [Series.apply(f)]: [f] on every cell in turn; the first exception
    ends the call. *)
Fixpoint apply {A B} (f : A -> outcome B) (col : list A) : outcome (list B) :=
  match col with
  | [] => ret []
  | a :: r =>
      b <- f a ;;
      bs <- apply f r ;;
      ret (b :: bs)
  end.

(** The mapped values become a float64 column: None and NaN are NaN,
    numbers keep their value; text cannot be averaged. *)
Definition to_float64 (v : pyval) : outcome (option Q) :=
  match v with
  | VNone | VNaN => ret None
  | VInt z => ret (Some (inject_Z z))
  | VFloat q => ret (Some q)
  | VStr _ => Raised TypeError
  end.

(** Line 62, the Python objects that [apply] collects. *)
Definition height_in_values (df : table) : outcome (list pyval) :=
  apply height_to_inches (map height df).

(** Line 62, the column [df_players["height_in"]]. *)
Definition height_in (df : table) : outcome series :=
  vals <- height_in_values df ;;
  apply to_float64 vals.

(** Line 69. *)
Definition heights (df : table) : outcome (list Q) :=
  col <- height_in df ;;
  ret (dropna col).

(** Lines 71 and 85-86: [heights.mean()], [heights.min()],
    [heights.max()]. *)
Definition heights_mean (df : table) : outcome (option Q) :=
  hs <- heights df ;; ret (mean hs).
Definition heights_min (df : table) : outcome (option Q) :=
  hs <- heights df ;; ret (min hs).
Definition heights_max (df : table) : outcome (option Q) :=
  hs <- heights df ;; ret (max hs).

(** Lines 218-219: the grouping behind chart 5. *)
Definition height_groups (df : table) : outcome (list (string * list Q)) :=
  col <- height_in df ;;
  ret (groupby (dropna_subset (combine (map position df) col))).

(** Lines 218-224. *)
Definition height_by_pos (df : table) : outcome (list agg) :=
  groups <- height_groups df ;;
  let height_by_pos := agg_mean_std groups in
  let height_by_pos := sort_values_mean_desc height_by_pos in
  ret (fillna_std height_by_pos).

Section Weight.

(** [pd.to_numeric] on a text cell: the number it reads, if any.  The
    parser belongs to pandas and is left open. *)
Variable parse_number : string -> option Q.

(** [pd.to_numeric(col, errors="coerce")] on one cell. *)
Definition to_numeric (v : pyval) : option Q :=
  match v with
  | VNone | VNaN => None
  | VInt z => Some (inject_Z z)
  | VFloat q => Some q
  | VStr s => parse_number s
  end.

(** Line 63, the column [df_players["weight"]]. *)
Definition weight_col (df : table) : series := map to_numeric (map weight df).

(** Line 265: the grouping behind chart 6. *)
Definition weight_groups (df : table) : list (string * list Q) :=
  groupby (dropna_subset (combine (map position df) (weight_col df))).

(** Lines 265-272. *)
Definition weight_by_pos (df : table) : list agg :=
  let weight_by_pos := agg_mean_std (weight_groups df) in
  let weight_by_pos := sort_values_mean_desc weight_by_pos in
  fillna_std weight_by_pos.

End Weight.

(** The table of the end-to-end scenario. *)
Definition scenario : table :=
  [ {| height := VStr "6-6"; weight := VStr "200"; position := Some "G" |};
    {| height := VStr "7-0"; weight := VStr "250"; position := Some "C" |};
    {| height := VStr "6-9"; weight := VStr "220"; position := Some "F" |} ].

(* ================================================================== *)
(** ** Vocabulary of the statements *)
(* ================================================================== *)

(** A numeric inches value: an int or a finite float, not NaN. *)
Definition is_number (v : pyval) : bool :=
  match v with
  | VInt _ | VFloat _ => true
  | _ => false
  end.

(** The value read off a string of digits, most significant first,
    continuing from [acc]. *)
Fixpoint dec_value (acc : Z) (s : string) : Z :=
  match s with
  | EmptyString => acc
  | String c r =>
      match digit_of c with
      | Some d => dec_value (acc * 10 + d) r
      | None => acc
      end
  end.

Fixpoint all_digits (s : string) : bool :=
  match s with
  | EmptyString => true
  | String c r =>
      match digit_of c with
      | Some _ => all_digits r
      | None => false
      end
  end.

(** The text [F-I]. *)
Definition feet_inches (F I : Z) : string :=
  str_int F ++ "-" ++ str_int I.

(** The invariant as the data model words it: a non-negative integer
    or the missing marker. *)
Definition nonneg_int_or_missing (v : pyval) : bool :=
  match v with
  | VNone => true
  | VInt n => (0 <=? n)%Z
  | _ => false
  end.

(** How a cell of [height_in] relates to the raw height [h] it was
    made from. *)
Definition height_in_of (h v : pyval) : Prop :=
  v = VNone \/
  (is_number h = true /\ v = h) \/
  (exists s a b f i,
      h = VStr s /\ split "-" s = [a; b] /\
      int a = Returned f /\ int b = Returned i /\
      0 <= f /\ 0 <= i /\ v = VInt (f * 12 + i)).

(** The cell that line 62 stores for a raw height [h]. *)
Definition height_cell (h : pyval) : option Q :=
  match (v <- height_to_inches h ;; to_float64 v) with
  | Returned c => c
  | Raised _ => None
  end.

Definition is_some {A} (o : option A) : bool :=
  match o with
  | Some _ => true
  | None => false
  end.

(** The cell of the grouping column holds the label [k]. *)
Definition labelled (k : string) (o : option string) : bool :=
  match o with
  | Some k' => String.eqb k' k
  | None => false
  end.

(** How many rows of the table contribute to the group [k] of chart 5:
    those at position [k] whose [height_in] is present. *)
Definition height_members (df : table) (k : string) : nat :=
  List.length
    (filter (fun p => labelled k (position p) &&
                      is_some (height_cell (height p))) df).

(** The same for chart 6 and the coerced [weight]. *)
Definition weight_members (parse_number : string -> option Q)
    (df : table) (k : string) : nat :=
  List.length
    (filter (fun p => labelled k (position p) &&
                      is_some (to_numeric parse_number (weight p))) df).

(** The rows that reach [groupby]: the grouping column [f] beside the
    value column [g], rows without a value dropped. *)
Definition frame_rows {A} (f : A -> option string) (g : A -> option Q)
    (l : list A) : list (option string * Q) :=
  dropna_subset (map (fun a => (f a, g a)) l).

(** The member counts of all groups, added up. *)
Definition total_members (groups : list (string * list Q)) : nat :=
  list_sum (map (fun g => List.length (snd g)) groups).

(** The order of the index labels: code point by code point. *)
Definition label_lt (a b : string) : Prop := String.compare a b = Lt.

(** What the source asks of [sort_values('mean', ascending=False)],
    whatever algorithm carries it out: the rows are rearranged so that
    no row stands behind one it may not stand behind, NaN means last.
    The order among rows of equal mean is the algorithm's business. *)
Definition sorts_mean_desc (sort : list agg -> list agg) : Prop :=
  forall l,
    Permutation (sort l) l /\
    StronglySorted
      (fun a b => desc_before (agg_mean a) (agg_mean b) = true) (sort l).

(** [.agg(['mean', 'std'])] with the averaging left open: [avg] is
    whatever the arithmetic of the machine makes of the mean of a
    group. *)
Definition agg_with (avg : list Q -> option Q)
    (groups : list (string * list Q)) : list agg :=
  map (fun g => {| label := fst g;
                   agg_mean := avg (snd g);
                   agg_std := std (snd g) |}) groups.


Definition weight_by_pos_with (parse_number : string -> option Q)
    (sort : list agg -> list agg) (avg : list Q -> option Q) (df : table)
  : list agg :=
  fillna_std (sort (agg_with avg (weight_groups parse_number df))).

(** The mean of a group that is not empty is a number. *)
Definition averages (avg : list Q -> option Q) : Prop :=
  forall x xs, avg (x :: xs) <> None.

(** Both rows have a mean, and that of [b] is not the larger one. *)
Definition mean_not_less (a b : agg) : Prop :=
  exists x y, agg_mean a = Some x /\ agg_mean b = Some y /\ (y <= x)%Q.


(** A reader of numerals for the examples: whole numbers only. *)
Definition whole_number (s : string) : option Q :=
  match int s with
  | Returned z => Some (inject_Z z)
  | Raised _ => None
  end.


(** A player whose position cell is empty. *)
Definition no_position : table :=
  [ {| height := VStr "6-6"; weight := VStr "200"; position := None |} ].

(* ================================================================== *)
(** ** The rest of the module: the figures of chart 1, the frequency
       charts, the bar labels *)
(* ================================================================== *)

(** The values in ascending order, as [median] needs them. *)
Fixpoint insert_asc (x : Q) (l : list Q) : list Q :=
  match l with
  | [] => [x]
  | y :: r => if Qle_bool x y then x :: l else y :: insert_asc x r
  end.

Fixpoint sort_asc (l : list Q) : list Q :=
  match l with
  | [] => []
  | x :: r => insert_asc x (sort_asc r)
  end.

(** [median()]: NaN on an empty series; the middle value, or the mean of
    the two middle values when their number is even. *)
Definition median (xs : list Q) : option Q :=
  match xs with
  | [] => None
  | _ :: _ =>
      let s := sort_asc xs in
      let n := List.length s in
      if Nat.even n
      then Some (Qred ((nth (n / 2 - 1)%nat s 0%Q + nth (n / 2)%nat s 0%Q) / 2))
      else Some (nth (n / 2)%nat s 0%Q)
  end.

(** The figures of one distribution chart (lines 71-72 and 85-86,
    114-115 and 129-130): mean, median, std, min, max. *)
Record summary := {
  s_mean : option Q;
  s_median : option Q;
  s_std : stdev;
  s_min : option Q;
  s_max : option Q
}.

Definition summarize (xs : list Q) : summary :=
  {| s_mean := mean xs;
     s_median := median xs;
     s_std := std xs;
     s_min := min xs;
     s_max := max xs |}.

(** Lines 69-86. *)
Definition heights_summary (df : table) : outcome summary :=
  hs <- heights df ;; ret (summarize hs).

(** [Series.value_counts()]: the distinct labels in the order of their
    first appearance, each with the number of its cells; empty cells
    are not counted ([dropna=True]) ... *)
Fixpoint bump (k : string) (acc : list (string * nat)) : list (string * nat) :=
  match acc with
  | [] => [(k, 1%nat)]
  | (k', n) :: r =>
      if String.eqb k' k then (k', S n) :: r else (k', n) :: bump k r
  end.

Fixpoint count_from (acc : list (string * nat)) (col : list (option string))
  : list (string * nat) :=
  match col with
  | [] => acc
  | Some k :: r => count_from (bump k acc) r
  | None :: r => count_from acc r
  end.

(** ... and then sorted by count, largest first ([sort=True]).  As for
    [sort_values_mean_desc], equal counts keep their incoming order. *)
Fixpoint insert_count (c : string * nat) (l : list (string * nat))
  : list (string * nat) :=
  match l with
  | [] => [c]
  | d :: r =>
      if (snd d <=? snd c)%nat then c :: l else d :: insert_count c r
  end.

Fixpoint sort_counts_desc (l : list (string * nat)) : list (string * nat) :=
  match l with
  | [] => []
  | c :: r => insert_count c (sort_counts_desc r)
  end.

Definition value_counts (col : list (option string)) : list (string * nat) :=
  sort_counts_desc (count_from [] col).

(** Line 153. *)
Definition position_counts (df : table) : list (string * nat) :=
  sort_counts_desc (value_counts (map position df)).

(** Line 188, on the column [df_players["team.full_name"]]. *)
Definition team_counts (team_full_name : list (option string))
  : list (string * nat) :=
  sort_counts_desc (value_counts team_full_name).

(** Lines 198-199: [team_counts.mean()], the reference line of
    chart 4. *)
Definition team_counts_mean (team_full_name : list (option string))
  : option Q :=
  mean (map (fun c => inject_Z (Z.of_nat (snd c))) (team_counts team_full_name)).

(** [row['std'] == 0] *)
Definition is_zero (s : stdev) : bool :=
  match s with
  | NaN => false
  | Num q | Root q => Qeq_bool q 0
  end.

(** A height on the chart: [rational + sqrt root]. *)
Record surd := { rational : Q; root : Q }.

(** Lines 235-238 and 283-286: where the value label of a bar goes.
    [fixed] is 2.0 for heights and 10 for weights, [gap] is 0.5 and 2. *)
Definition y_position (fixed gap : Q) (row : agg) : option surd :=
  match agg_mean row with
  | None => None
  | Some m =>
      if is_zero (agg_std row)
      then Some {| rational := m + fixed; root := 0 |}
      else
        match agg_std row with
        | NaN => None
        | Num q => Some {| rational := m + q + gap; root := 0 |}
        | Root v => Some {| rational := m + gap; root := v |}
        end
  end.

(** Lines 233-240: one label per bar, at the bar's index. *)
Definition height_labels (df : table) : outcome (list (nat * option surd)) :=
  rows <- height_by_pos df ;;
  ret (combine (seq 0 (List.length rows)) (map (y_position 2 (1 # 2)) rows)).

(** Lines 281-288. *)
Definition weight_labels (parse_number : string -> option Q) (df : table)
  : list (nat * option surd) :=
  let rows := weight_by_pos parse_number df in
  combine (seq 0 (List.length rows)) (map (y_position 10 2) rows).

(** How often the label [k] stands in a column. *)
Definition occurrences (k : string) (col : list (option string)) : nat :=
  List.length (filter (labelled k) col).

(** All values of a group are the same number. *)
Definition all_equal (xs : list Q) : Prop :=
  forall x y, In x xs -> In y xs -> (x == y)%Q.

(** The heights that make up the group [k] of chart 5, and the weights
    that make up the group [k] of chart 6. *)
Definition height_group (df : table) (k : string) : list Q :=
  members k (frame_rows position (fun p => height_cell (height p)) df).

Definition weight_group (parse_number : string -> option Q) (df : table)
    (k : string) : list Q :=
  members k
    (frame_rows position (fun p => to_numeric parse_number (weight p)) df).

(** The count listed for the label [k], 0 when it is not listed. *)
Fixpoint count_of (k : string) (l : list (string * nat)) : nat :=
  match l with
  | [] => 0%nat
  | (k', n) :: r => if String.eqb k' k then n else count_of k r
  end.

(** A table without a single readable height. *)
Definition unreadable : table :=
  [ {| height := VStr "N/A"; weight := VStr "200"; position := Some "G" |};
    {| height := VNaN; weight := VInt 250; position := Some "C" |} ].

(** Two centers of one height beside a guard. *)
Definition twins : table :=
  [ {| height := VStr "7-0"; weight := VStr "250"; position := Some "C" |};
    {| height := VStr "6-6"; weight := VStr "200"; position := Some "G" |};
    {| height := VStr "7-0"; weight := VStr "260"; position := Some "C" |} ].

(* ================================================================== *)
(** ** Python strings and [int] *)
(* ================================================================== *)

Example ex_int_us :
  int " +1_0 " = Returned 10 /\ int "-6" = Returned (-6) /\
  int "06" = Returned 6.
Proof. repeat split. Qed.

Example ex_int_bad :
  int "1__0" = Raised ValueError /\ int "" = Raised ValueError /\
  int "6 6" = Raised ValueError /\ int "_1" = Raised ValueError.
Proof. repeat split. Qed.

Example ex_str_int :
  str_int 1203 = "1203" /\ str_int 0 = "0" /\ str_int (-45) = "-45" /\
  str_int 10 = "10" /\ str_int 9 = "9" /\ str_int 100 = "100".
Proof. repeat split. Qed.

Example ex_split :
  split "-" "a-b-c" = ["a"; "b"; "c"] /\ split "-" "-6" = [""; "6"] /\
  split "-" "6-" = ["6"; ""] /\ split "-" "-" = [""; ""] /\
  split "-" "" = [""].
Proof. repeat split. Qed.

Lemma split_not_nil sep s : split sep s <> [].
Proof.
  destruct s as [|c r]; simpl; [discriminate|].
  destruct (Ascii.eqb c sep); [discriminate|].
  destruct (split sep r); discriminate.
Qed.

Lemma split_no_sep sep s : contains sep s = false -> split sep s = [s].
Proof.
  induction s as [|c r IH]; simpl; intros H; [reflexivity|].
  apply orb_false_iff in H. destruct H as [Hc Hr].
  rewrite Hc, (IH Hr). reflexivity.
Qed.

Lemma split_app_sep sep s1 s2 :
  contains sep s1 = false ->
  split sep (s1 ++ String sep s2) = s1 :: split sep s2.
Proof.
  induction s1 as [|c r IH]; simpl; intros H.
  - now rewrite Ascii.eqb_refl.
  - apply orb_false_iff in H. destruct H as [Hc Hr].
    rewrite Hc, (IH Hr). reflexivity.
Qed.

(** No piece of a split holds the separator. *)
Lemma split_pieces sep s : Forall (fun p => contains sep p = false) (split sep s).
Proof.
  induction s as [|c r IH]; simpl.
  - constructor; [reflexivity|constructor].
  - destruct (Ascii.eqb c sep) eqn:E.
    + constructor; [reflexivity|exact IH].
    + destruct (split sep r) as [|p ps]; inversion IH; subst.
      * constructor; [simpl; now rewrite E|constructor].
      * constructor; [simpl; now rewrite E|assumption].
Qed.

Lemma digit_of_range c d : digit_of c = Some d -> 0 <= d <= 9.
Proof.
  unfold digit_of.
  destruct ((48 <=? N_of_ascii c)%N && (N_of_ascii c <=? 57)%N) eqn:E;
    [|discriminate].
  intros H; injection H as <-.
  apply andb_true_iff in E. destruct E as [E1 E2].
  apply N.leb_le in E1, E2. lia.
Qed.

Lemma digit_not_space c d : digit_of c = Some d -> is_space c = false.
Proof.
  unfold digit_of, is_space.
  destruct ((48 <=? N_of_ascii c)%N && (N_of_ascii c <=? 57)%N) eqn:E;
    [|discriminate].
  intros _. apply andb_true_iff in E. destruct E as [E1 E2].
  apply N.leb_le in E1, E2.
  repeat rewrite orb_false_iff. repeat split.
  - apply andb_false_iff. right. apply N.leb_gt. lia.
  - apply N.eqb_neq. lia.
  - apply N.eqb_neq. lia.
  - apply N.eqb_neq. lia.
Qed.

Lemma digit_not_char c d (x : ascii) :
  digit_of x = None -> digit_of c = Some d -> Ascii.eqb c x = false.
Proof.
  intros Hx Hc. destruct (Ascii.eqb_spec c x) as [->|]; [congruence|reflexivity].
Qed.

Lemma digit_of_digit_char d :
  (d < 10)%N -> digit_of (digit_char d) = Some (Z.of_N d).
Proof.
  intros H.
  assert (E : (d = 0 \/ d = 1 \/ d = 2 \/ d = 3 \/ d = 4 \/ d = 5 \/ d = 6 \/
               d = 7 \/ d = 8 \/ d = 9)%N) by lia.
  repeat (destruct E as [->|E]; [reflexivity|]). subst. reflexivity.
Qed.

Lemma all_digits_no_char (x : ascii) s :
  digit_of x = None -> all_digits s = true -> contains x s = false.
Proof.
  intros Hx. induction s as [|c r IH]; simpl; [reflexivity|].
  destruct (digit_of c) eqn:E; [|discriminate].
  intros H. now rewrite (digit_not_char _ _ _ Hx E), (IH H).
Qed.

Lemma all_digits_app s1 s2 :
  all_digits s1 = true -> all_digits s2 = true -> all_digits (s1 ++ s2) = true.
Proof.
  induction s1 as [|c r IH]; simpl; [auto|].
  destruct (digit_of c); [auto|discriminate].
Qed.

Lemma dec_value_app s1 s2 acc :
  all_digits s1 = true ->
  dec_value acc (s1 ++ s2) = dec_value (dec_value acc s1) s2.
Proof.
  revert acc. induction s1 as [|c r IH]; simpl; intros acc; [reflexivity|].
  destruct (digit_of c); [auto|discriminate].
Qed.

Lemma scan_digits_all s acc n :
  all_digits s = true ->
  scan_digits acc n s
  = (dec_value acc s, (n + N.of_nat (String.length s))%N, EmptyString).
Proof.
  revert acc n. induction s as [|c r IH]; simpl String.length; intros acc n.
  - intros _. simpl. now rewrite N.add_0_r.
  - simpl. destruct (digit_of c); [|discriminate].
    intros H. rewrite (IH _ _ H). do 2 f_equal. lia.
Qed.

Lemma digits_all fuel n : all_digits (digits fuel n) = true.
Proof.
  revert n. induction fuel as [|f IH]; intros n; simpl.
  - rewrite digit_of_digit_char; [reflexivity|].
    apply N.mod_upper_bound. discriminate.
  - destruct (N.ltb_spec n 10).
    + simpl. now rewrite digit_of_digit_char.
    + apply all_digits_app; [apply IH|]. simpl.
      rewrite digit_of_digit_char; [reflexivity|].
      apply N.mod_upper_bound. discriminate.
Qed.

Lemma digits_value fuel n :
  (n < 10 ^ N.of_nat (S fuel))%N -> dec_value 0 (digits fuel n) = Z.of_N n.
Proof.
  revert n. induction fuel as [|f IH]; intros n Hn.
  - simpl in *. change (10 ^ 1)%N with 10%N in Hn.
    rewrite N.mod_small by exact Hn.
    rewrite digit_of_digit_char by exact Hn. lia.
  - cbn [digits]. destruct (N.ltb_spec n 10) as [Hlt|Hge].
    + simpl. rewrite digit_of_digit_char by exact Hlt. lia.
    + rewrite dec_value_app by apply digits_all.
      rewrite IH.
      * simpl. rewrite digit_of_digit_char
          by (apply N.mod_upper_bound; discriminate).
        rewrite (N.div_mod n 10) at 3 by discriminate. lia.
      * apply N.Div0.div_lt_upper_bound.
        rewrite <- N.pow_succ_r'. now rewrite <- Nnat.Nat2N.inj_succ.
Qed.

Lemma digits_first fuel n :
  exists c r, digits fuel n = String c r.
Proof.
  revert n. induction fuel as [|f IH]; intros n; simpl; [eauto|].
  destruct (n <? 10)%N; [eauto|].
  destruct (IH (n / 10)%N) as (c & r & ->). simpl. eauto.
Qed.

Lemma log2_fuel n : (n < 10 ^ N.of_nat (S (N.to_nat (N.log2 n))))%N.
Proof.
  rewrite Nnat.Nat2N.inj_succ, Nnat.N2Nat.id.
  destruct (N.eq_dec n 0) as [->|Hn]; [reflexivity|].
  apply N.lt_le_trans with (2 ^ N.succ (N.log2 n))%N.
  - apply N.log2_spec. lia.
  - apply N.pow_le_mono_l. lia.
Qed.

Lemma length_app s1 s2 :
  String.length (s1 ++ s2) = (String.length s1 + String.length s2)%nat.
Proof. induction s1 as [|c r IH]; simpl; congruence. Qed.

(** A number below [10^k] has at most [k] digits. *)
Lemma digits_length fuel n k :
  (n < 10 ^ N.succ k)%N ->
  (N.of_nat (String.length (digits fuel n)) <= N.succ k)%N.
Proof.
  revert n k. induction fuel as [|f IH]; intros n k Hn; simpl; [lia|].
  destruct (N.ltb_spec n 10) as [Hlt|Hge]; simpl; [lia|].
  rewrite length_app. simpl.
  destruct (N.eq_dec k 0) as [->|Hk]; [change (10 ^ N.succ 0)%N with 10%N in Hn; lia|].
  assert (Hd : (n / 10 < 10 ^ N.succ (N.pred k))%N).
  { apply N.Div0.div_lt_upper_bound.
    rewrite <- N.pow_succ_r', N.succ_pred by exact Hk. exact Hn. }
  specialize (IH _ _ Hd). lia.
Qed.

(** [int] reads back what [str] writes for a number that is not
    negative and has no more digits than [int] takes. *)
Lemma int_str_int z :
  0 <= z < 10 ^ Z.of_N int_max_str_digits -> int (str_int z) = Returned z.
Proof.
  intros [Hz Hcap]. unfold str_int.
  destruct (Z.ltb_spec z 0) as [Hneg|_]; [exfalso; revert Hz Hneg; clear; lia|].
  set (n := Z.abs_N z). set (f := N.to_nat (N.log2 n)).
  pose proof (digits_all f n) as Hall.
  pose proof (digits_value f n (log2_fuel n)) as Hval.
  assert (Hlen : (N.of_nat (String.length (digits f n))
                  <= int_max_str_digits)%N).
  { apply (digits_length f n 4299). subst n.
    change (N.succ 4299) with int_max_str_digits.
    apply N2Z.inj_lt.
    rewrite N2Z.inj_abs_N, N2Z.inj_pow, Z.abs_eq by exact Hz.
    exact Hcap. }
  clear Hcap.
  destruct (digits_first f n) as (c & r & E). rewrite E in *.
  simpl in Hall, Hval. destruct (digit_of c) as [d|] eqn:Hd; [|discriminate].
  unfold int. simpl skip_spaces. rewrite (digit_not_space _ _ Hd).
  assert (Hs2 : match String c r with
                | String "+" r0 => (false, r0)
                | String "-" r0 => (true, r0)
                | _ => (false, String c r)
                end = (false, String c r)).
  { destruct (Ascii.eqb_spec c "+") as [->|]; [discriminate|].
    destruct (Ascii.eqb_spec c "-") as [->|]; [discriminate|].
    destruct c as [[] [] [] [] [] [] [] []]; try reflexivity; congruence. }
  rewrite Hs2. rewrite Hd, (scan_digits_all _ _ _ Hall).
  simpl String.length in Hlen.
  destruct (N.ltb_spec int_max_str_digits (1 + N.of_nat (String.length r)))
    as [Hover|_]; [unfold int_max_str_digits in *; lia|].
  simpl. f_equal. simpl in Hval. rewrite Hval. subst n. lia.
Qed.

(** A number from [10^k] on has more than [k] digits. *)
Lemma digits_length_lower fuel : forall n k,
  (n < 10 ^ N.of_nat (S fuel))%N -> (10 ^ N.of_nat k <= n)%N ->
  (k < String.length (digits fuel n))%nat.
Proof.
  induction fuel as [|f IH]; intros n k Hn Hk.
  - simpl. change (10 ^ N.of_nat 1)%N with 10%N in Hn.
    destruct k as [|k]; [lia|]. exfalso.
    assert (10 ^ 1 <= 10 ^ N.of_nat (S k))%N
      by (apply N.pow_le_mono_r; lia).
    change (10 ^ 1)%N with 10%N in *. lia.
  - cbn [digits]. destruct (N.ltb_spec n 10) as [Hlt|Hge].
    + simpl. destruct k as [|k]; [lia|]. exfalso.
      assert (10 ^ 1 <= 10 ^ N.of_nat (S k))%N
        by (apply N.pow_le_mono_r; lia).
      change (10 ^ 1)%N with 10%N in *. lia.
    + rewrite length_app. simpl. destruct k as [|k]; [lia|].
      assert (k < String.length (digits f (n / 10)))%nat; [|lia].
      apply IH.
      * apply N.Div0.div_lt_upper_bound.
        rewrite <- N.pow_succ_r', <- Nnat.Nat2N.inj_succ. exact Hn.
      * apply N.div_le_lower_bound; [discriminate|].
        rewrite <- N.pow_succ_r', <- Nnat.Nat2N.inj_succ. exact Hk.
Qed.

(** [int] refuses what [str] would write for a number of more digits
    than it takes. *)
Lemma int_str_int_over z :
  10 ^ Z.of_N int_max_str_digits <= z ->
  int (str_int z) = Raised ValueError.
Proof.
  intros Hcap.
  assert (Hz : 0 <= z).
  { apply Z.le_trans with (10 ^ Z.of_N int_max_str_digits); [|exact Hcap].
    apply Z.pow_nonneg. discriminate. }
  unfold str_int.
  destruct (Z.ltb_spec z 0) as [Hneg|_]; [exfalso; revert Hz Hneg; clear; lia|].
  set (n := Z.abs_N z). set (f := N.to_nat (N.log2 n)).
  pose proof (digits_all f n) as Hall.
  assert (Hlen : (N.to_nat int_max_str_digits
                  < String.length (digits f n))%nat).
  { apply digits_length_lower; [apply log2_fuel|].
    rewrite Nnat.N2Nat.id. subst n. apply N2Z.inj_le.
    rewrite N2Z.inj_abs_N, N2Z.inj_pow, Z.abs_eq by exact Hz.
    exact Hcap. }
  clear Hcap.
  destruct (digits_first f n) as (c & r & E). rewrite E in *.
  simpl in Hall. destruct (digit_of c) as [d|] eqn:Hd; [|discriminate].
  unfold int. simpl skip_spaces. rewrite (digit_not_space _ _ Hd).
  assert (Hs2 : match String c r with
                | String "+" r0 => (false, r0)
                | String "-" r0 => (true, r0)
                | _ => (false, String c r)
                end = (false, String c r)).
  { destruct (Ascii.eqb_spec c "+") as [->|]; [discriminate|].
    destruct (Ascii.eqb_spec c "-") as [->|]; [discriminate|].
    destruct c as [[] [] [] [] [] [] [] []]; try reflexivity; congruence. }
  rewrite Hs2. rewrite Hd, (scan_digits_all _ _ _ Hall).
  simpl String.length in Hlen.
  destruct (N.ltb_spec int_max_str_digits (1 + N.of_nat (String.length r)))
    as [_|Hunder]; [reflexivity|]. exfalso. lia.
Qed.

Lemma str_int_no_minus z : 0 <= z -> contains "-" (str_int z) = false.
Proof.
  intros Hz. unfold str_int. destruct (Z.ltb_spec z 0); [lia|].
  apply all_digits_no_char; [reflexivity|apply digits_all].
Qed.

(** White space is skipped up to a character that is not white space,
    so what is left is a suffix of the text. *)
Lemma skip_spaces_no_char (x : ascii) s :
  contains x s = false -> contains x (skip_spaces s) = false.
Proof.
  induction s as [|c r IH]; simpl; [auto|].
  intros H. destruct (is_space c); [|exact H].
  apply orb_false_iff in H. now apply IH.
Qed.

Lemma scan_digits_nonneg s :
  forall acc n, 0 <= acc -> 0 <= fst (fst (scan_digits acc n s)).
Proof.
  assert (G : forall k s, (String.length s <= k)%nat ->
                forall acc n, 0 <= acc -> 0 <= fst (fst (scan_digits acc n s))).
  { induction k as [|k IH]; intros [|c r] Hlen acc n Hacc; simpl in *;
      try assumption; try lia.
    destruct (digit_of c) as [d|] eqn:Hd.
    - apply IH; [lia|]. apply digit_of_range in Hd. lia.
    - destruct (Ascii.eqb c "_"); [|assumption].
      destruct r as [|c' r']; [assumption|].
      destruct (digit_of c') as [d|] eqn:Hd'; [|assumption].
      apply IH; [simpl in Hlen; lia|]. apply digit_of_range in Hd'. lia. }
  intros acc n. apply (G (String.length s)). lia.
Qed.

(** A text without a minus sign never reads as a negative number. *)
Lemma int_nonneg s z :
  contains "-" s = false -> int s = Returned z -> 0 <= z.
Proof.
  intros Hs. apply (skip_spaces_no_char "-") in Hs.
  unfold int. destruct (skip_spaces s) as [|c r] eqn:Es; [discriminate|].
  simpl in Hs. apply orb_false_iff in Hs. destruct Hs as [Hc _].
  assert (Hpos : forall c0 r0, match digit_of c0 with
            | Some d => let '(v, n, rest) := scan_digits d 1 r0 in
                if (int_max_str_digits <? n)%N then Raised ValueError
                else
                  match skip_spaces rest with
                  | EmptyString => Returned (if false then - v else v)
                  | String _ _ => Raised ValueError
                  end
            | None => Raised ValueError
            end = Returned z -> 0 <= z).
  { intros c0 r0. destruct (digit_of c0) as [d|] eqn:Hd; [|discriminate].
    pose proof (scan_digits_nonneg r0 d 1) as Hn.
    destruct (scan_digits d 1 r0) as [[v n] rest]. simpl in Hn.
    destruct (int_max_str_digits <? n)%N; [discriminate|].
    destruct (skip_spaces rest); [|discriminate].
    intros H; injection H as <-. apply Hn. apply digit_of_range in Hd. lia. }
  destruct (Ascii.eqb_spec c "+") as [->|Hp].
  - destruct r as [|c0 r0]; [discriminate|]. apply Hpos.
  - destruct (Ascii.eqb_spec c "-") as [->|Hm]; [discriminate|].
    assert (Hs2 : match String c r with
                  | String "+" r0 => (false, r0)
                  | String "-" r0 => (true, r0)
                  | _ => (false, String c r)
                  end = (false, String c r)).
    { destruct c as [[] [] [] [] [] [] [] []]; try reflexivity; congruence. }
    rewrite Hs2. apply Hpos.
Qed.

(* ================================================================== *)
(** ** The height normaliser *)
(* ================================================================== *)

Example ex_66 : height_to_inches (VStr "6-6") = Returned (VInt 78).
Proof. reflexivity. Qed.

Example ex_plus : height_to_inches (VStr " +6 - 1_0") = Returned (VInt 82).
Proof. reflexivity. Qed.

(** After the two guards only text is left. *)
Lemma guards_leave_text h :
  isna h = false -> isinstance_int_float h = false -> exists s, h = VStr s.
Proof. destruct h; simpl; try discriminate; eauto. Qed.

(** What the function does with a text, case by case. *)
Lemma height_to_inches_text s :
  height_to_inches (VStr s) = Returned VNone \/
  exists a b f i,
    split "-" s = [a; b] /\ int a = Returned f /\ int b = Returned i /\
    0 <= f /\ 0 <= i /\
    height_to_inches (VStr s) = Returned (VInt (f * 12 + i)).
Proof.
  unfold height_to_inches. simpl.
  destruct (contains "-" s) eqn:Hc; simpl; [|now left].
  pose proof (split_pieces "-" s) as Hp.
  destruct (split "-" s) as [|a [|b [|c l]]]; simpl; try now left.
  inversion Hp as [|? ? Ha Hp']; subst. inversion Hp' as [|? ? Hb _]; subst.
  destruct (int a) as [f|] eqn:Ea; simpl; [|now left].
  destruct (int b) as [i|] eqn:Eb; simpl; [|now left].
  right. exists a, b, f, i. repeat split; eauto using int_nonneg.
Qed.

Lemma height_to_inches_returns h :
  exists v, height_to_inches h = Returned v /\ (v = VNone \/ is_number v = true).
Proof.
  destruct h as [| |z|q|s]; try (eexists; split; [reflexivity|]; auto; fail).
  destruct (height_to_inches_text s) as [H|(a & b & f & i & _ & _ & _ & _ & _ & H)];
    rewrite H; eauto.
Qed.

Lemma height_to_inches_no_sep s :
  contains "-" s = false -> height_to_inches (VStr s) = Returned VNone.
Proof. intros H. unfold height_to_inches. simpl. now rewrite H. Qed.

Lemma height_to_inches_part_fails s a b :
  split "-" s = [a; b] ->
  (exists e, int a = Raised e) \/ (exists e, int b = Raised e) ->
  height_to_inches (VStr s) = Returned VNone.
Proof.
  intros Hs H. unfold height_to_inches. simpl.
  destruct (contains "-" s); [simpl|reflexivity]. rewrite Hs. simpl.
  destruct H as [[e He]|[e He]].
  - now rewrite He.
  - rewrite He. now destruct (int a).
Qed.

(** C1: on every raw height (null, a number, any text) [height_to_inches]
    returns, and what it returns is a numeric inches value or the missing
    marker; it never raises.  Null inputs, texts without a ["-"] and
    texts whose two parts do not both read as integers give the missing
    marker, never a made-up zero; so do ["N/A"] and ["abc-def"]. *)
Theorem height_to_inches_never_raises :
  (forall h, exists v, height_to_inches h = Returned v /\
                       (v = VNone \/ is_number v = true)) /\
  height_to_inches VNone = Returned VNone /\
  height_to_inches VNaN = Returned VNone /\
  (forall s, contains "-" s = false ->
             height_to_inches (VStr s) = Returned VNone) /\
  (forall s a b, split "-" s = [a; b] ->
             (exists e, int a = Raised e) \/ (exists e, int b = Raised e) ->
             height_to_inches (VStr s) = Returned VNone) /\
  height_to_inches (VStr "N/A") = Returned VNone /\
  height_to_inches (VStr "abc-def") = Returned VNone.
Proof.
  split; [exact height_to_inches_returns|].
  repeat split.
  - exact height_to_inches_no_sep.
  - exact height_to_inches_part_fails.
Qed.

Lemma height_to_inches_never_raises_witness :
  contains "-" "N/A" = false /\
  height_to_inches (VStr "N/A") = Returned VNone /\
  split "-" "abc-def" = ["abc"; "def"] /\
  int "abc" = Raised ValueError /\
  height_to_inches (VStr "abc-def") = Returned VNone.
Proof.
  destruct height_to_inches_never_raises as (_ & _ & _ & Hno & Hbad & _).
  split; [reflexivity|]. split; [apply Hno; reflexivity|].
  split; [reflexivity|]. split; [reflexivity|].
  apply (Hbad _ "abc" "def"); [reflexivity|].
  left. exists ValueError. reflexivity.
Defined.

Lemma cap_above_100 : 100 <= 10 ^ Z.of_N int_max_str_digits.
Proof.
  change 100 with (10 ^ 2).
  apply Z.pow_le_mono_r; [reflexivity|intros H; discriminate H].
Qed.

(** A number below 100 is below the bound on the numerals. *)
Lemma below_cap z : z < 100 -> z < 10 ^ 4300.
Proof. intros H. exact (Z.lt_le_trans _ _ _ H cap_above_100). Qed.

Lemma contains_sep_app (sep : ascii) s1 s2 :
  contains sep (s1 ++ String sep s2) = true.
Proof.
  induction s1 as [|c r IH]; simpl.
  - now rewrite Ascii.eqb_refl.
  - rewrite IH. apply orb_true_r.
Qed.

(** What the function makes of two numerals that [int] reads back. *)
Lemma height_to_inches_numerals F I :
  int (str_int F) = Returned F -> int (str_int I) = Returned I ->
  0 <= F -> 0 <= I ->
  height_to_inches (VStr (feet_inches F I)) = Returned (VInt (F * 12 + I)).
Proof.
  intros EF EI HF HI. unfold height_to_inches, feet_inches. simpl.
  rewrite contains_sep_app. simpl.
  rewrite split_app_sep, split_no_sep by now apply str_int_no_minus.
  simpl. rewrite EF. simpl. rewrite EI. reflexivity.
Qed.

(** C2, as amended: for integers [0 <= F] and [0 <= I < 12] written in
    decimal, [F] with no more than 4300 digits, the text ["F-I"] is
    mapped to the integer [F*12 + I]. *)
Theorem height_to_inches_feet_inches F I :
  0 <= F < 10 ^ 4300 -> 0 <= I < 12 ->
  height_to_inches (VStr (feet_inches F I)) = Returned (VInt (F * 12 + I)).
Proof.
  intros [HF Hcap] [HI H12].
  apply height_to_inches_numerals; try assumption.
  - apply int_str_int. now split.
  - apply int_str_int. split; [exact HI|].
    apply below_cap. revert H12. clear. lia.
Qed.

Lemma height_to_inches_feet_inches_witness :
  (0 <= 6 < 10 ^ 4300 /\ 0 <= 6 < 12 /\
   height_to_inches (VStr "6-6") = Returned (VInt 78)) /\
  (0 <= 7 < 10 ^ 4300 /\ 0 <= 0 < 12 /\
   height_to_inches (VStr "7-0") = Returned (VInt 84)).
Proof.
  assert (H6 : 0 <= 6 < 10 ^ 4300)
    by (split; [discriminate|apply below_cap; reflexivity]).
  assert (H7 : 0 <= 7 < 10 ^ 4300)
    by (split; [discriminate|apply below_cap; reflexivity]).
  assert (I6 : 0 <= 6 < 12) by (split; [discriminate|reflexivity]).
  assert (I0 : 0 <= 0 < 12) by (split; [discriminate|reflexivity]).
  split.
  - split; [exact H6|]. split; [exact I6|].
    exact (height_to_inches_feet_inches 6 6 H6 I6).
  - split; [exact H7|]. split; [exact I0|].
    exact (height_to_inches_feet_inches 7 0 H7 I0).
Defined.

Lemma split_feet_inches F I :
  0 <= F -> 0 <= I -> split "-" (feet_inches F I) = [str_int F; str_int I].
Proof.
  intros HF HI. unfold feet_inches.
  change ("-" ++ str_int I) with (String "-" (str_int I)).
  now rewrite split_app_sep, split_no_sep by now apply str_int_no_minus.
Qed.

(** C2, as stated, fails: [int] takes no numeral of more than 4300
    digits, so a well-formed text whose feet have 4301 digits gives the
    missing marker. *)
Lemma height_to_inches_digit_cap :
  0 <= 10 ^ 4300 /\ 0 <= 0 < 12 /\
  height_to_inches (VStr (feet_inches (10 ^ 4300) 0)) = Returned VNone.
Proof.
  assert (Hpos : 0 <= 10 ^ 4300) by (apply Z.pow_nonneg; discriminate).
  split; [exact Hpos|].
  split; [split; [discriminate|reflexivity]|].
  apply (height_to_inches_part_fails
           (feet_inches (10 ^ 4300) 0) (str_int (10 ^ 4300)) (str_int 0)).
  - apply split_feet_inches; [exact Hpos|apply Z.le_refl].
  - left. exists ValueError. apply int_str_int_over.
    change (Z.of_N int_max_str_digits) with 4300. apply Z.le_refl.
Qed.

Lemma apply_returns {A B} (f : A -> outcome B) (P : A -> B -> Prop) :
  (forall a, exists b, f a = Returned b /\ P a b) ->
  forall col, exists bs, apply f col = Returned bs /\ Forall2 P col bs.
Proof.
  intros Hf. induction col as [|a r IH]; simpl.
  - exists []. split; [reflexivity|constructor].
  - destruct (Hf a) as (b & Hb & Pb). destruct IH as (bs & Hbs & Pbs).
    exists (b :: bs). rewrite Hb. simpl. rewrite Hbs. simpl.
    split; [reflexivity|now constructor].
Qed.

Lemma height_to_inches_cell h :
  exists v, height_to_inches h = Returned v /\ height_in_of h v.
Proof.
  destruct h as [| |z|q|s].
  - exists VNone. split; [reflexivity|now left].
  - exists VNone. split; [reflexivity|now left].
  - exists (VInt z). split; [reflexivity|]. right. left. now split.
  - exists (VFloat q). split; [reflexivity|]. right. left. now split.
  - destruct (height_to_inches_text s)
      as [H|(a & b & f & i & Hs & Ha & Hb & Hf & Hi & H)]; rewrite H.
    + exists VNone. split; [reflexivity|now left].
    + eexists. split; [reflexivity|]. right. right.
      exists s, a, b, f, i. repeat split; assumption.
Qed.

(** C4, as amended: every cell of [height_in] is the missing marker, or
    the raw height itself when that is already a number (not NaN), or,
    when the raw height is a text, the non-negative integer
    [feet*12 + inches] read from its two parts.  No default value is
    put in its place. *)
Theorem height_in_cells (df : table) :
  exists vals,
    height_in_values df = Returned vals /\
    Forall2 (fun p v => height_in_of (height p) v) df vals.
Proof.
  unfold height_in_values.
  destruct (apply_returns height_to_inches height_in_of
              height_to_inches_cell (map height df)) as (vals & Hv & HF).
  exists vals. split; [exact Hv|].
  clear Hv. revert vals HF. induction df as [|p r IH]; intros vals HF;
    inversion HF; subst; constructor; auto.
Qed.

(** C4, as stated, fails: a height column that already holds numbers
    keeps them, fractional or negative as they may be. *)
Lemma height_in_not_nonneg_int :
  height_in_values
    [ {| height := VFloat (157 # 2); weight := VInt 200; position := Some "G" |};
      {| height := VInt (-3); weight := VInt 250; position := Some "C" |} ]
  = Returned [VFloat (157 # 2); VInt (-3)] /\
  nonneg_int_or_missing (VFloat (157 # 2)) = false /\
  nonneg_int_or_missing (VInt (-3)) = false.
Proof. repeat split. Qed.




(** C9: NaN passes both tests, null and numeric; the null test comes
    first, so NaN gives the missing marker and not itself. *)
Theorem height_to_inches_nan :
  isna VNaN = true /\ isinstance_int_float VNaN = true /\
  height_to_inches VNaN = Returned VNone.
Proof. repeat split. Qed.

(** C10: a text with a ["-"] that does not split into exactly two parts,
    or that has an empty part, gives the missing marker: the failed
    unpacking or the failed [int] is caught inside the function. *)
Theorem height_to_inches_bad_split :
  (forall s, contains "-" s = true ->
             List.length (split "-" s) <> 2%nat ->
             height_to_inches (VStr s) = Returned VNone) /\
  (forall s a b, split "-" s = [a; b] ->
             a = "" \/ b = "" ->
             height_to_inches (VStr s) = Returned VNone) /\
  height_to_inches (VStr "6-6-6") = Returned VNone /\
  height_to_inches (VStr "-6") = Returned VNone.
Proof.
  repeat split.
  - intros s Hc Hlen. unfold height_to_inches. simpl. rewrite Hc. simpl.
    destruct (split "-" s) as [|a [|b [|c l]]]; simpl in *;
      try reflexivity; congruence.
  - intros s a b Hs Hab.
    apply (height_to_inches_part_fails s a b Hs).
    destruct Hab as [->| ->]; [left|right]; exists ValueError; reflexivity.
Qed.

Lemma height_to_inches_bad_split_witness :
  (contains "-" "6-6-6" = true /\
   List.length (split "-" "6-6-6") = 3%nat /\
   height_to_inches (VStr "6-6-6") = Returned VNone) /\
  (split "-" "6-" = ["6"; ""] /\
   height_to_inches (VStr "6-") = Returned VNone).
Proof.
  destruct height_to_inches_bad_split as (Hlen & Hempty & _).
  split.
  - split; [reflexivity|]. split; [reflexivity|].
    apply Hlen; [reflexivity|discriminate].
  - split; [reflexivity|].
    apply (Hempty _ "6" ""); [reflexivity|now right].
Defined.

(* ================================================================== *)
(** ** groupby *)
(* ================================================================== *)

Lemma label_lt_trans a b c : label_lt a b -> label_lt b c -> label_lt a c.
Proof.
  unfold label_lt. intros H1 H2.
  apply String_as_OT.cmp_lt in H1, H2. apply String_as_OT.cmp_lt.
  exact (String_as_OT.lt_trans _ _ _ H1 H2).
Qed.

Lemma label_lt_irrefl a : ~ label_lt a a.
Proof.
  unfold label_lt. intros H. apply String_as_OT.cmp_lt in H.
  exact (String_as_OT.lt_not_eq _ _ H eq_refl).
Qed.

Lemma insert_key_In k ks x : In x (insert_key k ks) <-> x = k \/ In x ks.
Proof.
  induction ks as [|k' r IH]; simpl.
  - intuition.
  - destruct (String.compare k k') eqn:E; simpl.
    + apply String.compare_eq_iff in E. subst. intuition.
    + intuition.
    + rewrite IH. intuition.
Qed.

Lemma insert_key_sorted k ks :
  StronglySorted label_lt ks -> StronglySorted label_lt (insert_key k ks).
Proof.
  induction ks as [|k' r IH]; simpl; intros Hs.
  - repeat constructor.
  - inversion Hs as [|? ? Hr Hall]; subst.
    destruct (String.compare k k') eqn:E.
    + exact Hs.
    + constructor; [exact Hs|]. constructor; [exact E|].
      eapply Forall_impl; [|exact Hall].
      intros c Hc. exact (label_lt_trans _ _ _ E Hc).
    + constructor; [auto|].
      apply Forall_forall. intros x Hx. rewrite insert_key_In in Hx.
      destruct Hx as [->|Hx].
      * unfold label_lt. rewrite String_as_OT.cmp_antisym.
        unfold String_as_OT.cmp. now rewrite E.
      * rewrite Forall_forall in Hall. auto.
Qed.

Lemma group_keys_sorted rows : StronglySorted label_lt (group_keys rows).
Proof.
  induction rows as [|[[k|] x] r IH]; simpl.
  - constructor.
  - now apply insert_key_sorted.
  - exact IH.
Qed.

Lemma group_keys_In rows k :
  In k (group_keys rows) <-> exists x, In (Some k, x) rows.
Proof.
  induction rows as [|[[k'|] x] r IH]; simpl.
  - split; [tauto|]. intros [? []].
  - rewrite insert_key_In, IH. split.
    + intros [->|[y Hy]]; eauto.
    + intros [y [Hy|Hy]]; [injection Hy as -> ->; now left|eauto].
  - rewrite IH. split.
    + intros [y Hy]; eauto.
    + intros [y [Hy|Hy]]; [discriminate|eauto].
Qed.

Lemma sorted_NoDup ks : StronglySorted label_lt ks -> NoDup ks.
Proof.
  induction 1 as [|k r Hs IH Hall]; constructor; [|exact IH].
  intros Hin. rewrite Forall_forall in Hall.
  exact (label_lt_irrefl _ (Hall _ Hin)).
Qed.

Lemma members_In k rows x : In x (members k rows) -> In (Some k, x) rows.
Proof.
  induction rows as [|[[k'|] y] r IH]; simpl; [tauto| |auto].
  destruct (String.eqb_spec k' k) as [->|]; simpl; [|auto].
  intros [->|H]; auto.
Qed.

Lemma members_not_nil k rows x : In (Some k, x) rows -> members k rows <> [].
Proof.
  induction rows as [|[[k'|] y] r IH]; simpl; [tauto| |].
  - intros [H|H].
    + injection H as -> ->. rewrite String.eqb_refl. discriminate.
    + destruct (String.eqb k' k); [discriminate|auto].
  - intros [H|H]; [discriminate|auto].
Qed.

(** One key among distinct keys takes the row. *)
Lemma one_key_takes k ks :
  NoDup ks -> In k ks ->
  list_sum (map (fun k' => if String.eqb k k' then 1 else 0)%nat ks) = 1%nat.
Proof.
  induction 1 as [|k' r Hnin Hnd IH]; simpl; [tauto|].
  intros [->|Hin].
  - rewrite String.eqb_refl. f_equal.
    clear IH Hnd. induction r as [|c r IH]; simpl; [reflexivity|].
    destruct (String.eqb_spec k c) as [->|]; [exfalso; apply Hnin; now left|].
    apply IH. intros H. apply Hnin. now right.
  - destruct (String.eqb_spec k k') as [->|]; [contradiction|]. now apply IH.
Qed.

Lemma members_total ks rows :
  NoDup ks ->
  (forall k x, In (Some k, x) rows -> In k ks) ->
  list_sum (map (fun k => List.length (members k rows)) ks)
  = List.length (filter (fun row => is_some (fst row)) rows).
Proof.
  intros Hnd. induction rows as [|[[k|] x] r IH]; intros Hin.
  - simpl. clear. induction ks; simpl; auto.
  - assert (E : list_sum (map (fun k' => List.length
                     (members k' ((Some k, x) :: r))) ks)
               = (list_sum (map (fun k' => if String.eqb k k' then 1 else 0) ks)
                  + list_sum (map (fun k' => List.length (members k' r)) ks))%nat).
    { clear. induction ks as [|c ks IH]; simpl; [reflexivity|].
      simpl in IH. rewrite IH. destruct (String.eqb k c); simpl; lia. }
    rewrite E, (one_key_takes k ks Hnd) by (eapply Hin; left; reflexivity).
    rewrite IH by (intros; eapply Hin; right; eauto). reflexivity.
  - simpl filter. rewrite <- IH by (intros; eapply Hin; right; eauto).
    reflexivity.
Qed.

Lemma groupby_total rows :
  total_members (groupby rows)
  = List.length (filter (fun row => is_some (fst row)) rows).
Proof.
  unfold total_members, groupby. rewrite map_map. simpl.
  apply members_total.
  - apply sorted_NoDup, group_keys_sorted.
  - intros k x H. apply group_keys_In. eauto.
Qed.

(* ================================================================== *)
(** ** Aggregation and sorting *)
(* ================================================================== *)

Lemma std_single xs : List.length xs = 1%nat -> fillna0 (std xs) = Num 0.
Proof. destruct xs as [|x [|y r]]; simpl; try discriminate; reflexivity. Qed.

Lemma fillna0_not_nan s : fillna0 s <> NaN.
Proof. destruct s; discriminate. Qed.

Lemma mean_some xs : xs <> [] -> exists m, mean xs = Some m.
Proof. destruct xs; [congruence|]. simpl. eauto. Qed.

Lemma insert_desc_In a l x : In x (insert_desc a l) <-> x = a \/ In x l.
Proof.
  induction l as [|b r IH]; simpl.
  - intuition.
  - destruct (desc_before (agg_mean a) (agg_mean b)); simpl.
    + intuition.
    + rewrite IH. intuition.
Qed.

Lemma sort_values_In l x : In x (sort_values_mean_desc l) <-> In x l.
Proof.
  induction l as [|a r IH]; simpl; [tauto|].
  rewrite insert_desc_In, IH. intuition.
Qed.

Lemma agg_means_some rows :
  Forall (fun a => exists x, agg_mean a = Some x) (agg_mean_std (groupby rows)).
Proof.
  unfold agg_mean_std, groupby. rewrite map_map. simpl.
  rewrite Forall_map. simpl. apply Forall_forall. intros k Hk.
  apply group_keys_In in Hk. destruct Hk as [x Hx].
  apply mean_some. exact (members_not_nil _ _ _ Hx).
Qed.

Lemma insert_desc_perm a l : Permutation (insert_desc a l) (a :: l).
Proof.
  induction l as [|b r IH]; simpl; [reflexivity|].
  destruct (desc_before (agg_mean a) (agg_mean b)); [reflexivity|].
  rewrite IH. apply perm_swap.
Qed.

Lemma sort_values_perm l : Permutation (sort_values_mean_desc l) l.
Proof.
  induction l as [|a r IH]; simpl; [reflexivity|].
  rewrite insert_desc_perm. now constructor.
Qed.

Lemma desc_before_trans a b c :
  desc_before a b = true -> desc_before b c = true -> desc_before a c = true.
Proof.
  destruct a as [x|], b as [y|], c as [z|]; simpl; try congruence.
  rewrite !Qle_bool_iff. intros H1 H2. now apply Qle_trans with y.
Qed.

Lemma desc_before_total a b :
  desc_before a b = false -> desc_before b a = true.
Proof.
  destruct a as [x|], b as [y|]; simpl; try congruence.
  intros H. apply Qle_bool_iff.
  destruct (Qlt_le_dec x y) as [Hlt|Hle]; [now apply Qlt_le_weak|].
  apply Qle_bool_iff in Hle. congruence.
Qed.

Lemma insert_desc_ordered a l :
  StronglySorted
    (fun a b => desc_before (agg_mean a) (agg_mean b) = true) l ->
  StronglySorted
    (fun a b => desc_before (agg_mean a) (agg_mean b) = true)
    (insert_desc a l).
Proof.
  induction 1 as [|b r Hr IH Hall]; simpl; [repeat constructor|].
  destruct (desc_before (agg_mean a) (agg_mean b)) eqn:E.
  - constructor; [now constructor|]. constructor; [exact E|].
    eapply Forall_impl; [|exact Hall].
    intros c Hc. now apply desc_before_trans with (agg_mean b).
  - constructor; [exact IH|].
    apply Forall_forall. intros c Hc. rewrite insert_desc_In in Hc.
    destruct Hc as [->|Hc]; [now apply desc_before_total|].
    rewrite Forall_forall in Hall. auto.
Qed.

(** The insertion sort does what is asked of the sort. *)
Lemma sort_values_meets_contract : sorts_mean_desc sort_values_mean_desc.
Proof.
  intros l. split; [apply sort_values_perm|].
  induction l as [|a r IH]; simpl; [constructor|].
  now apply insert_desc_ordered.
Qed.

(** Whatever sort does what is asked and whatever the averaging, the
    aggregated frame comes out with means that never increase. *)
Lemma sorted_frame (sort : list agg -> list agg)
    (avg : list Q -> option Q) rows :
  sorts_mean_desc sort -> averages avg ->
  StronglySorted mean_not_less
    (fillna_std (sort (agg_with avg (groupby rows)))).
Proof.
  intros Hsort Havg.
  destruct (Hsort (agg_with avg (groupby rows))) as [Hp Hs].
  assert (Hm : Forall (fun a => exists x, agg_mean a = Some x)
                 (sort (agg_with avg (groupby rows)))).
  { apply Forall_forall. intros a Ha.
    apply (Permutation_in _ Hp) in Ha.
    unfold agg_with, groupby in Ha. rewrite map_map, in_map_iff in Ha.
    destruct Ha as (k & <- & Hk). cbn [agg_mean fst snd].
    apply group_keys_In in Hk. destruct Hk as [x0 Hx0].
    apply members_not_nil in Hx0.
    destruct (members k rows) as [|x xs]; [congruence|].
    destruct (avg (x :: xs)) as [m|] eqn:E; [eauto|].
    exfalso. exact (Havg x xs E). }
  clear Hp. induction Hs as [|a r Hr IH Hall]; simpl; [constructor|].
  inversion Hm as [|? ? [x Hx] Hm']; subst.
  constructor; [exact (IH Hm')|].
  unfold fillna_std. rewrite Forall_map. rewrite Forall_forall in *.
  intros b Hb. destruct (Hm' b Hb) as [y Hy].
  exists x, y. cbn [agg_mean]. repeat split; try assumption.
  apply Qle_bool_iff. specialize (Hall b Hb). now rewrite Hx, Hy in Hall.
Qed.

Lemma mean_averages : averages mean.
Proof. intros x xs. discriminate. Qed.

(** The aggregated frame, however it was sorted, row by row. *)
Lemma aggregated_row rows r :
  In r (fillna_std (sort_values_mean_desc (agg_mean_std (groupby rows)))) <->
  In (label r) (group_keys rows) /\
  r = {| label := label r;
         agg_mean := mean (members (label r) rows);
         agg_std := fillna0 (std (members (label r) rows)) |}.
Proof.
  unfold fillna_std, agg_mean_std, groupby.
  rewrite in_map_iff. split.
  - intros (a & <- & Ha). rewrite sort_values_In in Ha.
    rewrite map_map, in_map_iff in Ha. destruct Ha as (k & <- & Hk).
    simpl. auto.
  - intros [Hk Hr]. eexists. split; [|apply sort_values_In].
    2:{ rewrite map_map, in_map_iff. exists (label r). split; [reflexivity|exact Hk]. }
    simpl. symmetry. exact Hr.
Qed.

(* ================================================================== *)
(** ** The pipeline *)
(* ================================================================== *)

(** Line 62 never raises, and stores [height_cell] of every raw
    height. *)
Lemma height_in_eq df :
  height_in df = Returned (map (fun p => height_cell (height p)) df).
Proof.
  unfold height_in, height_in_values. rewrite <- (map_map height height_cell).
  induction (map height df) as [|h col IH]; [reflexivity|].
  simpl. unfold height_cell at 1.
  destruct (height_to_inches_returns h) as (v & Hv & Hn). rewrite Hv. simpl.
  destruct (apply height_to_inches col) as [vals|e]; simpl in *;
    [|discriminate].
  destruct Hn as [->|Hn]; [|destruct v; try discriminate];
    simpl; rewrite IH; reflexivity.
Qed.

Lemma combine_columns {A B C} (f : A -> B) (g : A -> C) l :
  combine (map f l) (map g l) = map (fun a => (f a, g a)) l.
Proof. induction l; simpl; congruence. Qed.

Lemma height_groups_eq df :
  height_groups df =
  Returned (groupby
    (frame_rows position (fun p => height_cell (height p)) df)).
Proof.
  unfold height_groups, frame_rows. rewrite height_in_eq. simpl.
  rewrite <- (map_map height height_cell), <- combine_columns.
  now rewrite map_map.
Qed.

Lemma height_by_pos_eq df :
  height_by_pos df =
  Returned (fillna_std (sort_values_mean_desc (agg_mean_std (groupby
    (frame_rows position (fun p => height_cell (height p)) df))))).
Proof. unfold height_by_pos. now rewrite height_groups_eq. Qed.

Lemma weight_by_pos_eq parse df :
  weight_by_pos parse df =
  fillna_std (sort_values_mean_desc (agg_mean_std (groupby
    (frame_rows position (fun p => to_numeric parse (weight p)) df)))).
Proof.
  unfold weight_by_pos, weight_groups, weight_col, frame_rows.
  rewrite map_map, combine_columns. reflexivity.
Qed.

Section Frames.

Context {A : Type} (f : A -> option string) (g : A -> option Q).

Lemma members_count k l :
  List.length (members k (frame_rows f g l))
  = List.length (filter (fun a => labelled k (f a) && is_some (g a)) l).
Proof.
  unfold frame_rows. induction l as [|a r IH]; simpl; [reflexivity|].
  destruct (g a) as [x|]; simpl.
  - destruct (f a) as [k'|]; simpl; [|exact IH].
    destruct (String.eqb k' k); simpl; now rewrite IH.
  - now rewrite andb_false_r.
Qed.

Lemma labelled_count l :
  List.length (filter (fun row => is_some (fst row)) (frame_rows f g l))
  = List.length (filter (fun a => is_some (f a) && is_some (g a)) l).
Proof.
  unfold frame_rows. induction l as [|a r IH]; simpl; [reflexivity|].
  destruct (g a) as [x|]; simpl.
  - destruct (f a) as [k'|]; simpl; now rewrite IH.
  - now rewrite andb_false_r.
Qed.

Lemma dropna_count l :
  List.length (dropna (map g l))
  = List.length (filter (fun a => is_some (g a)) l).
Proof.
  induction l as [|a r IH]; simpl; [reflexivity|].
  destruct (g a); simpl; now rewrite IH.
Qed.

(** When no row with a value lacks a label, the two filters agree. *)
Lemma all_labelled l :
  forallb (fun a => implb (is_some (g a)) (is_some (f a))) l = true ->
  filter (fun a => is_some (f a) && is_some (g a)) l
  = filter (fun a => is_some (g a)) l.
Proof.
  induction l as [|a r IH]; simpl; [reflexivity|].
  intros H. apply andb_true_iff in H. destruct H as [Ha Hr].
  rewrite (IH Hr). destruct (g a), (f a); simpl in *;
    try reflexivity; discriminate.
Qed.

(** A group with one contributing row has standard deviation 0 in the
    aggregated frame, and every label with a contributing row has its
    record. *)
Lemma aggregated_single l :
  let recs := fillna_std (sort_values_mean_desc
                (agg_mean_std (groupby (frame_rows f g l)))) in
  (forall r, In r recs ->
     agg_std r <> NaN /\
     (List.length (filter (fun a => labelled (label r) (f a) &&
                                    is_some (g a)) l) = 1%nat ->
      agg_std r = Num 0)) /\
  (forall k,
     List.length (filter (fun a => labelled k (f a) &&
                                   is_some (g a)) l) = 1%nat ->
     exists r, In r recs /\ label r = k).
Proof.
  intros recs. subst recs. split.
  - intros r Hr. apply aggregated_row in Hr. destruct Hr as [_ Hr].
    rewrite Hr. simpl. split; [apply fillna0_not_nan|].
    intros H. apply std_single. now rewrite members_count.
  - intros k Hk. rewrite <- members_count in Hk.
    exists {| label := k;
              agg_mean := mean (members k (frame_rows f g l));
              agg_std := fillna0 (std (members k (frame_rows f g l))) |}.
    split; [|reflexivity]. apply aggregated_row. simpl.
    split; [|reflexivity].
    destruct (members k (frame_rows f g l)) as [|x xs] eqn:E; [discriminate|].
    apply group_keys_In. exists x. apply members_In. rewrite E. now left.
Qed.

End Frames.

(** C3, as amended: on the three-row table the heights have mean 81.0,
    minimum 78 and maximum 84; chart 5 has the three groups G, C and F
    with means 78, 84 and 81, each with standard deviation 0, in the
    order C:84, F:81, G:78. *)
Theorem scenario_statistics :
  heights_mean scenario = Returned (Some 81%Q) /\
  heights_min scenario = Returned (Some 78%Q) /\
  heights_max scenario = Returned (Some 84%Q) /\
  height_groups scenario =
    Returned [("C", [84%Q]); ("F", [81%Q]); ("G", [78%Q])] /\
  height_by_pos scenario =
    Returned [ {| label := "C"; agg_mean := Some 84%Q; agg_std := Num 0 |};
               {| label := "F"; agg_mean := Some 81%Q; agg_std := Num 0 |};
               {| label := "G"; agg_mean := Some 78%Q; agg_std := Num 0 |} ].
Proof. repeat split. Qed.

(** C3, as stated, fails: the mean of 78, 84 and 81 is not 79.0. *)
Lemma scenario_mean_not_79 :
  ~ (exists m, heights_mean scenario = Returned (Some m) /\ (m == 79)%Q).
Proof.
  intros (m & Hm & E). vm_compute in Hm. injection Hm as <-.
  discriminate E.
Qed.

(** C5: in both per-position frames a group with exactly one
    contributing row has its record, and the standard deviation in that
    record is 0; no record is left with a missing standard deviation. *)
Theorem single_member_std_zero (parse_number : string -> option Q) df :
  (exists recs,
     height_by_pos df = Returned recs /\
     (forall r, In r recs ->
        agg_std r <> NaN /\
        (height_members df (label r) = 1%nat -> agg_std r = Num 0)) /\
     (forall k, height_members df k = 1%nat ->
        exists r, In r recs /\ label r = k)) /\
  (forall r, In r (weight_by_pos parse_number df) ->
     agg_std r <> NaN /\
     (weight_members parse_number df (label r) = 1%nat ->
      agg_std r = Num 0)) /\
  (forall k, weight_members parse_number df k = 1%nat ->
     exists r, In r (weight_by_pos parse_number df) /\ label r = k).
Proof.
  split.
  - eexists. split; [apply height_by_pos_eq|].
    exact (aggregated_single position (fun p => height_cell (height p)) df).
  - rewrite weight_by_pos_eq.
    exact (aggregated_single position
             (fun p => to_numeric parse_number (weight p)) df).
Qed.

Lemma single_member_std_zero_witness :
  height_members scenario "C" = 1%nat /\
  weight_members whole_number scenario "C" = 1%nat /\
  (exists recs r,
     height_by_pos scenario = Returned recs /\
     In r recs /\ label r = "C" /\ agg_std r = Num 0) /\
  (exists r,
     In r (weight_by_pos whole_number scenario) /\
     label r = "C" /\ agg_std r = Num 0).
Proof.
  destruct (single_member_std_zero whole_number scenario)
    as ((recs & Hrecs & Hstd & Hex) & Hw & Hwex).
  split; [reflexivity|]. split; [reflexivity|]. split.
  - destruct (Hex "C" eq_refl) as (r & Hr & Hl).
    exists recs, r. repeat split; try assumption.
    apply (Hstd r Hr). rewrite Hl. reflexivity.
  - destruct (Hwex "C" eq_refl) as (r & Hr & Hl).
    exists r. repeat split; try assumption.
    apply (Hw r Hr). rewrite Hl. reflexivity.
Defined.




(** C7, as amended: the member counts of the groups behind chart 5 add
    up to the number of rows whose [height_in] and whose position are
    both present; when no row with a height lacks a position, that is
    the number of non-missing [height_in] values. *)
Theorem height_groups_total df :
  exists groups hs,
    height_groups df = Returned groups /\
    heights df = Returned hs /\
    total_members groups
    = List.length (filter (fun p => is_some (position p) &&
                                    is_some (height_cell (height p))) df) /\
    (forallb (fun p => implb (is_some (height_cell (height p)))
                             (is_some (position p))) df = true ->
     total_members groups = List.length hs).
Proof.
  eexists. eexists. split; [apply height_groups_eq|].
  split; [unfold heights; rewrite height_in_eq; reflexivity|].
  rewrite groupby_total.
  rewrite (labelled_count position (fun p => height_cell (height p))).
  split; [reflexivity|].
  intros H. rewrite (dropna_count (fun p => height_cell (height p))).
  now rewrite all_labelled.
Qed.

Lemma height_groups_total_witness :
  forallb (fun p => implb (is_some (height_cell (height p)))
                          (is_some (position p))) scenario = true /\
  exists groups hs,
    height_groups scenario = Returned groups /\
    heights scenario = Returned hs /\
    total_members groups = List.length hs.
Proof.
  split; [reflexivity|].
  destruct (height_groups_total scenario) as (groups & hs & Hg & Hh & _ & Hall).
  exists groups, hs. repeat split; try assumption.
  apply Hall. reflexivity.
Defined.

(** C7, as stated, fails: a row with a height and no position is in no
    group, yet its [height_in] is present. *)
Lemma no_position_not_counted :
  exists groups hs,
    height_groups no_position = Returned groups /\
    heights no_position = Returned hs /\
    total_members groups = 0%nat /\
    List.length hs = 1%nat.
Proof. do 2 eexists. repeat split. Qed.

Example ex_twins :
  height_by_pos twins =
    Returned [ {| label := "C"; agg_mean := Some 84%Q; agg_std := Root 0 |};
               {| label := "G"; agg_mean := Some 78%Q; agg_std := Num 0 |} ] /\
  height_labels twins =
    Returned [ (0%nat, Some {| rational := 86; root := 0 |});
               (1%nat, Some {| rational := 80; root := 0 |}) ] /\
  position_counts twins = [("C", 2%nat); ("G", 1%nat)] /\
  heights_summary twins =
    Returned {| s_mean := Some (82 # 1); s_median := Some 84%Q;
                s_std := Root 12; s_min := Some 78%Q; s_max := Some 84%Q |}.
Proof. repeat split. Qed.

(* ================================================================== *)
(** ** More about the height normaliser *)
(* ================================================================== *)

(** X1: the inches part is not checked against 12: for any integers
    [F >= 0] and [I >= 0] of no more than 4300 digits each, the text
    ["F-I"] gives [F*12 + I], so ["6-14"] is 86 inches. *)
Theorem height_to_inches_inches_unchecked F I :
  0 <= F < 10 ^ 4300 -> 0 <= I < 10 ^ 4300 ->
  height_to_inches (VStr (feet_inches F I)) = Returned (VInt (F * 12 + I)).
Proof.
  intros HF HI.
  apply height_to_inches_numerals;
    [now apply int_str_int|now apply int_str_int|apply HF|apply HI].
Qed.

Lemma height_to_inches_inches_unchecked_witness :
  0 <= 6 < 10 ^ 4300 /\ 0 <= 14 < 10 ^ 4300 /\
  height_to_inches (VStr "6-14") = Returned (VInt 86).
Proof.
  assert (H6 : 0 <= 6 < 10 ^ 4300)
    by (split; [discriminate|apply below_cap; reflexivity]).
  assert (H14 : 0 <= 14 < 10 ^ 4300)
    by (split; [discriminate|apply below_cap; reflexivity]).
  split; [exact H6|]. split; [exact H14|].
  exact (height_to_inches_inches_unchecked 6 14 H6 H14).
Defined.

Lemma str_int_negative z :
  z < 0 -> exists ds, str_int z = String "-" ds /\ contains "-" ds = false.
Proof.
  intros Hz. unfold str_int. destruct (Z.ltb_spec z 0) as [_|]; [|lia].
  eexists. split; [reflexivity|].
  apply all_digits_no_char; [reflexivity|apply digits_all].
Qed.

(** X2: a height written as a plain whole number is not read: for every
    integer [z] the text [str(z)] gives the missing marker.  A numeral
    that is not negative has no ["-"]; a negative one splits into an
    empty first part, which [int] rejects. *)
Theorem height_to_inches_plain_numeral z :
  height_to_inches (VStr (str_int z)) = Returned VNone.
Proof.
  destruct (Z.lt_ge_cases z 0) as [Hneg|Hpos].
  - destruct (str_int_negative z Hneg) as (ds & -> & Hds).
    apply (height_to_inches_part_fails _ "" ds).
    + simpl. now rewrite split_no_sep.
    + left. exists ValueError. reflexivity.
  - apply height_to_inches_no_sep. now apply str_int_no_minus.
Qed.

(* ================================================================== *)
(** ** The distribution summaries *)
(* ================================================================== *)

Lemma count_cons x xs : (count (x :: xs) == 1 + count xs)%Q.
Proof.
  unfold count. simpl List.length. rewrite Nat2Z.inj_succ.
  unfold Z.succ. rewrite inject_Z_plus. simpl. ring.
Qed.

Lemma count_nonneg xs : (0 <= count xs)%Q.
Proof.
  unfold count. change 0%Q with (inject_Z 0).
  rewrite <- Zle_Qle. lia.
Qed.

Lemma count_pos x xs : (0 < count (x :: xs))%Q.
Proof.
  rewrite count_cons. pose proof (count_nonneg xs) as H.
  apply Qlt_le_trans with 1%Q; [reflexivity|].
  rewrite <- (Qplus_0_r 1) at 1. apply Qplus_le_r. exact H.
Qed.

Lemma heights_eq df :
  heights df = Returned (dropna (map (fun p => height_cell (height p)) df)).
Proof. unfold heights. now rewrite height_in_eq. Qed.

Lemma dropna_none {A} (g : A -> option Q) l :
  existsb (fun a => is_some (g a)) l = false -> dropna (map g l) = [].
Proof.
  induction l as [|a r IH]; simpl; [reflexivity|].
  destruct (g a) as [x|]; simpl; [discriminate|exact IH].
Qed.

Lemma frame_rows_none {A} (f : A -> option string) (g : A -> option Q) l :
  existsb (fun a => is_some (g a)) l = false -> frame_rows f g l = [].
Proof.
  unfold frame_rows. induction l as [|a r IH]; simpl; [reflexivity|].
  destruct (g a) as [x|]; simpl; [discriminate|exact IH].
Qed.

(** X5: when no height is readable (the empty table among others)
    nothing raises: mean, median, minimum and maximum of chart 1 are
    NaN, as is the standard deviation, and chart 5 has no bar and no
    label. *)
Theorem no_readable_height df :
  existsb (fun p => is_some (height_cell (height p))) df = false ->
  heights_summary df =
    Returned {| s_mean := None; s_median := None; s_std := NaN;
                s_min := None; s_max := None |} /\
  height_by_pos df = Returned [] /\
  height_labels df = Returned [].
Proof.
  intros H. unfold heights_summary, height_labels.
  rewrite heights_eq, height_by_pos_eq.
  rewrite (dropna_none _ _ H), (frame_rows_none _ _ _ H).
  repeat split.
Qed.

Lemma no_readable_height_witness :
  existsb (fun p => is_some (height_cell (height p))) unreadable = false /\
  height_by_pos unreadable = Returned [] /\
  height_by_pos [] = Returned [].
Proof.
  split; [reflexivity|]. split.
  - apply (no_readable_height unreadable). reflexivity.
  - apply (no_readable_height []). reflexivity.
Defined.

(* ================================================================== *)

Lemma aggregated_labels rows :
  Permutation
    (map label (fillna_std (sort_values_mean_desc
                              (agg_mean_std (groupby rows)))))
    (group_keys rows).
Proof.
  unfold fillna_std. rewrite map_map. simpl.
  rewrite sort_values_perm.
  unfold agg_mean_std, groupby. rewrite !map_map. simpl.
  now rewrite map_id.
Qed.

Lemma group_keys_members rows k :
  In k (group_keys rows) <-> (1 <= List.length (members k rows))%nat.
Proof.
  rewrite group_keys_In. split.
  - intros [x Hx]. apply members_not_nil in Hx.
    destruct (members k rows); [congruence|simpl; lia].
  - destruct (members k rows) as [|x xs] eqn:E; simpl; [lia|].
    intros _. exists x. apply members_In. rewrite E. now left.
Qed.

Section MoreFrames.

Context {A : Type} (f : A -> option string) (g : A -> option Q).

(** One record per label that has a contributing row, and no other. *)
Lemma aggregated_labels_exact l :
  let recs := fillna_std (sort_values_mean_desc
                (agg_mean_std (groupby (frame_rows f g l)))) in
  NoDup (map label recs) /\
  (forall k, In k (map label recs) <->
     (1 <= List.length (filter (fun a => labelled k (f a) &&
                                         is_some (g a)) l))%nat).
Proof.
  intros recs. subst recs.
  pose proof (aggregated_labels (frame_rows f g l)) as P. split.
  - apply (Permutation_NoDup (Permutation_sym P)).
    apply sorted_NoDup, group_keys_sorted.
  - intros k. rewrite <- members_count, <- group_keys_members. split.
    + apply (Permutation_in _ P).
    + apply (Permutation_in _ (Permutation_sym P)).
Qed.

End MoreFrames.

(** X7: each per-position frame has exactly one record for every
    position that has a contributing row, and none for any other: the
    labels are distinct, and a label is there if and only if some row at
    that position has the value. *)
Theorem frames_one_record_per_position
    (parse_number : string -> option Q) df :
  (exists recs,
     height_by_pos df = Returned recs /\
     NoDup (map label recs) /\
     (forall k, In k (map label recs) <-> (1 <= height_members df k)%nat)) /\
  NoDup (map label (weight_by_pos parse_number df)) /\
  (forall k, In k (map label (weight_by_pos parse_number df)) <->
             (1 <= weight_members parse_number df k)%nat).
Proof.
  split.
  - eexists. split; [apply height_by_pos_eq|].
    exact (aggregated_labels_exact position
             (fun p => height_cell (height p)) df).
  - rewrite weight_by_pos_eq.
    exact (aggregated_labels_exact position
             (fun p => to_numeric parse_number (weight p)) df).
Qed.

(** X9: whatever sort carries out line 269, and however the means are
    rounded, the rows of chart 6 come out with means that never
    increase. *)
Theorem weight_by_pos_sorted
    (parse_number : string -> option Q)
    (sort : list agg -> list agg) (avg : list Q -> option Q) df :
  sorts_mean_desc sort -> averages avg ->
  StronglySorted mean_not_less (weight_by_pos_with parse_number sort avg df).
Proof.
  intros Hsort Havg. unfold weight_by_pos_with, weight_groups, weight_col.
  now apply sorted_frame.
Qed.

Lemma weight_by_pos_sorted_witness :
  sorts_mean_desc sort_values_mean_desc /\ averages mean /\
  StronglySorted mean_not_less (weight_by_pos whole_number twins).
Proof.
  split; [exact sort_values_meets_contract|].
  split; [exact mean_averages|].
  exact (weight_by_pos_sorted whole_number sort_values_mean_desc mean twins
           sort_values_meets_contract mean_averages).
Defined.

(** X10: the member counts of the groups behind chart 6 add up to the
    number of rows that have both a position and a weight that
    [to_numeric] could read. *)
Theorem weight_groups_total (parse_number : string -> option Q) df :
  total_members (weight_groups parse_number df)
  = List.length
      (filter (fun p => is_some (position p) &&
                        is_some (to_numeric parse_number (weight p))) df).
Proof.
  unfold weight_groups, weight_col.
  rewrite map_map, combine_columns.
  change (dropna_subset (map (fun a => (position a,
            to_numeric parse_number (weight a))) df))
    with (frame_rows position
            (fun p => to_numeric parse_number (weight p)) df).
  rewrite groupby_total. apply labelled_count.
Qed.

(* ================================================================== *)
(** ** The bar labels *)
(* ================================================================== *)

Lemma square_nonneg (d : Q) : (0 <= d * d)%Q.
Proof.
  destruct (Qlt_le_dec d 0) as [H|H].
  - setoid_replace (d * d)%Q with ((- d) * (- d))%Q by ring.
    apply Qmult_le_0_compat; lra.
  - now apply Qmult_le_0_compat.
Qed.

Lemma square_zero (x m : Q) : ((x - m) * (x - m) == 0 -> x == m)%Q.
Proof. intros H. apply Qmult_integral in H. lra. Qed.

Lemma sum_sq_nonneg m xs : (0 <= sum_sq m xs)%Q.
Proof.
  unfold sum_sq. induction xs as [|x r IH]; simpl; [apply Qle_refl|].
  pose proof (square_nonneg (x - m)). lra.
Qed.

Lemma sum_sq_zero m xs :
  (sum_sq m xs == 0)%Q <-> (forall x, In x xs -> x == m)%Q.
Proof.
  induction xs as [|x r IH]; simpl.
  - split; [tauto|reflexivity].
  - change (sum_sq m (x :: r)) with ((x - m) * (x - m) + sum_sq m r)%Q.
    pose proof (square_nonneg (x - m)) as H1.
    pose proof (sum_sq_nonneg m r) as H2. split.
    + intros H y [<-|Hy].
      * apply square_zero. lra.
      * apply IH; [lra|exact Hy].
    + intros H.
      assert (E1 : (x == m)%Q) by (apply H; now left).
      assert (E2 : (sum_sq m r == 0)%Q) by (apply IH; intros; apply H; now right).
      rewrite E2, E1. ring.
Qed.

Lemma sum_all_equal a xs :
  (forall x, In x xs -> x == a)%Q -> (sum xs == a * count xs)%Q.
Proof.
  induction xs as [|x r IH]; intros H.
  - unfold count. simpl. ring.
  - rewrite count_cons. simpl sum.
    rewrite (H x (or_introl eq_refl)), IH by (intros; apply H; now right).
    ring.
Qed.

(** The values are all equal exactly when each equals their mean. *)
Lemma all_equal_mean x xs :
  all_equal (x :: xs) <->
  (forall y, In y (x :: xs) -> y == sum (x :: xs) / count (x :: xs))%Q.
Proof.
  pose proof (count_pos x xs) as Hc. split.
  - intros H y Hy.
    rewrite (sum_all_equal y) by (intros z Hz; now apply H).
    rewrite Qdiv_mult_l by lra. reflexivity.
  - intros H y z Hy Hz. now rewrite (H y Hy), (H z Hz).
Qed.

Lemma quotient_zero (a c : Q) : (0 < c -> (a / c == 0 <-> a == 0))%Q.
Proof.
  intros Hc. split; intros H.
  - rewrite <- (Qmult_div_r a c) by lra. rewrite H. ring.
  - unfold Qdiv. rewrite H. ring.
Qed.

(** [row['std'] == 0] holds exactly for the groups whose values are all
    equal, the groups of one value among them. *)
Lemma std_zero_iff x xs :
  is_zero (fillna0 (std (x :: xs))) = true <-> all_equal (x :: xs).
Proof.
  destruct xs as [|y r].
  - simpl. split; [|reflexivity].
    intros _ a b [<-|[]] [<-|[]]. reflexivity.
  - rewrite all_equal_mean, <- sum_sq_zero.
    change (is_zero (fillna0 (std (x :: y :: r))))
      with (Qeq_bool (Qred (sum_sq (sum (x :: y :: r) / count (x :: y :: r))
                              (x :: y :: r) / (count (x :: y :: r) - 1))) 0).
    rewrite Qeq_bool_iff, Qred_correct.
    apply quotient_zero.
    rewrite count_cons. pose proof (count_pos y r). lra.
Qed.

Section Labels.

Context {A : Type} (f : A -> option string) (g : A -> option Q).

Lemma equal_values_zero_std l r :
  In r (fillna_std (sort_values_mean_desc
          (agg_mean_std (groupby (frame_rows f g l))))) ->
  all_equal (members (label r) (frame_rows f g l)) ->
  is_zero (agg_std r) = true.
Proof.
  intros Hr. apply aggregated_row in Hr. destruct Hr as [Hk Hr].
  apply group_keys_members in Hk.
  destruct (members (label r) (frame_rows f g l)) as [|x xs] eqn:E;
    [simpl in Hk; lia|].
  intros Hall. rewrite Hr. cbn [agg_std]. now apply std_zero_iff.
Qed.

End Labels.

(** X11: [row['std'] == 0] is true for every group of charts 5 and 6
    whose values are all equal, so the label of its bar takes the fixed
    offset of lines 236 and 284.  That is so for a position with one
    player and as well for a position whose several players have one
    and the same height (weight). *)
Theorem equal_values_take_fixed_offset
    (parse_number : string -> option Q) df :
  (exists recs,
     height_by_pos df = Returned recs /\
     forall r, In r recs ->
       all_equal (height_group df (label r)) ->
       is_zero (agg_std r) = true) /\
  (forall r, In r (weight_by_pos parse_number df) ->
     all_equal (weight_group parse_number df (label r)) ->
     is_zero (agg_std r) = true).
Proof.
  split.
  - eexists. split; [apply height_by_pos_eq|].
    intros r. apply equal_values_zero_std.
  - rewrite weight_by_pos_eq. intros r. apply equal_values_zero_std.
Qed.

Lemma equal_values_take_fixed_offset_witness :
  exists recs r,
    height_by_pos twins = Returned recs /\ In r recs /\ label r = "C" /\
    height_group twins "C" = [84%Q; 84%Q] /\
    is_zero (agg_std r) = true.
Proof.
  destruct (equal_values_take_fixed_offset whole_number twins)
    as [(recs & Hrecs & Hz) _].
  exists recs, {| label := "C"; agg_mean := Some 84%Q; agg_std := Root 0 |}.
  assert (Hin : In {| label := "C"; agg_mean := Some 84%Q; agg_std := Root 0 |}
                  recs).
  { assert (E : Returned recs = height_by_pos twins) by (symmetry; exact Hrecs).
    vm_compute in E. injection E as ->. now left. }
  split; [exact Hrecs|]. split; [exact Hin|]. split; [reflexivity|].
  split; [reflexivity|].
  apply (Hz _ Hin). intros x y Hx Hy.
  assert (Ex : x = 84%Q) by (destruct Hx as [<-|[<-|[]]]; reflexivity).
  assert (Ey : y = 84%Q) by (destruct Hy as [<-|[<-|[]]]; reflexivity).
  subst. reflexivity.
Defined.


(* ================================================================== *)
(** ** The frequency charts *)
(* ================================================================== *)

Lemma bump_keys k acc k' :
  In k' (map fst (bump k acc)) <-> k' = k \/ In k' (map fst acc).
Proof.
  induction acc as [|[c n] r IH]; simpl; [intuition|].
  destruct (String.eqb_spec c k) as [->|Hne]; simpl; [intuition|].
  rewrite IH. intuition.
Qed.

Lemma bump_NoDup k acc : NoDup (map fst acc) -> NoDup (map fst (bump k acc)).
Proof.
  induction acc as [|[c n] r IH]; simpl; intros H.
  - constructor; [tauto|constructor].
  - inversion H as [|? ? Hnin Hr]; subst.
    destruct (String.eqb_spec c k) as [->|Hne]; simpl; [exact H|].
    constructor; [|auto]. rewrite bump_keys. intros [E|E]; congruence.
Qed.

Lemma bump_positive k acc :
  Forall (fun c => (1 <= snd c)%nat) acc ->
  Forall (fun c => (1 <= snd c)%nat) (bump k acc).
Proof.
  induction 1 as [|[c n] r Hc Hr IH]; simpl.
  - repeat constructor.
  - destruct (String.eqb c k); constructor; simpl in *; auto; lia.
Qed.

Lemma count_of_bump k acc k' :
  count_of k' (bump k acc)
  = (count_of k' acc + if String.eqb k k' then 1 else 0)%nat.
Proof.
  induction acc as [|[c n] r IH]; simpl.
  - destruct (String.eqb k k'); reflexivity.
  - destruct (String.eqb_spec c k) as [->|Hne]; simpl.
    + destruct (String.eqb k k'); lia.
    + destruct (String.eqb_spec c k') as [->|Hne'].
      * destruct (String.eqb_spec k k'); [congruence|lia].
      * exact IH.
Qed.

Lemma bump_total k acc :
  list_sum (map snd (bump k acc)) = S (list_sum (map snd acc)).
Proof.
  induction acc as [|[c n] r IH]; simpl; [reflexivity|].
  destruct (String.eqb c k); simpl; lia.
Qed.

Lemma count_from_spec col : forall acc,
  NoDup (map fst acc) ->
  Forall (fun c => (1 <= snd c)%nat) acc ->
  NoDup (map fst (count_from acc col)) /\
  Forall (fun c => (1 <= snd c)%nat) (count_from acc col) /\
  (forall k, count_of k (count_from acc col)
             = (count_of k acc + occurrences k col)%nat) /\
  (forall k, In k (map fst (count_from acc col)) <->
             In k (map fst acc) \/ (1 <= occurrences k col)%nat) /\
  list_sum (map snd (count_from acc col))
  = (list_sum (map snd acc) + List.length (filter is_some col))%nat.
Proof.
  unfold occurrences.
  induction col as [|[k0|] r IH]; intros acc Hnd Hpos; simpl.
  - repeat split; auto; try lia. intros [H|H]; [exact H|lia].
  - destruct (IH (bump k0 acc) (bump_NoDup _ _ Hnd) (bump_positive _ _ Hpos))
      as (H1 & H2 & H3 & H4 & H5).
    repeat split; auto.
    + intros k. rewrite H3, count_of_bump.
      destruct (String.eqb k0 k); simpl; lia.
    + rewrite H4, bump_keys. intros [[->|H]|H]; auto.
      * right. rewrite String.eqb_refl. simpl. lia.
      * right. destruct (String.eqb k0 k); simpl; lia.
    + rewrite H4, bump_keys. intros [H|H]; auto.
      destruct (String.eqb_spec k0 k) as [->|]; auto.
    + rewrite H5, bump_total. lia.
  - apply IH; assumption.
Qed.

Lemma count_of_In k n l :
  NoDup (map fst l) -> In (k, n) l -> count_of k l = n.
Proof.
  induction l as [|[c m] r IH]; simpl; [tauto|].
  intros Hnd. inversion Hnd as [|? ? Hnin Hr]; subst.
  intros [E|Hin].
  - injection E as -> ->. now rewrite String.eqb_refl.
  - destruct (String.eqb_spec c k) as [->|]; [|auto].
    exfalso. apply Hnin. apply in_map_iff. exists (k, n). auto.
Qed.

Lemma In_count_of k l : In k (map fst l) -> In (k, count_of k l) l.
Proof.
  induction l as [|[c m] r IH]; simpl; [tauto|].
  destruct (String.eqb_spec c k) as [->|Hne]; [now left|].
  intros [E|Hin]; [congruence|right; auto].
Qed.

Lemma insert_count_perm c l : Permutation (insert_count c l) (c :: l).
Proof.
  induction l as [|d r IH]; simpl; [reflexivity|].
  destruct (snd d <=? snd c)%nat; [reflexivity|].
  rewrite IH. apply perm_swap.
Qed.

Lemma sort_counts_perm l : Permutation (sort_counts_desc l) l.
Proof.
  induction l as [|c r IH]; simpl; [reflexivity|].
  rewrite insert_count_perm. now constructor.
Qed.

Lemma insert_count_sorted c l :
  StronglySorted (fun a b => (snd b <= snd a)%nat) l ->
  StronglySorted (fun a b => (snd b <= snd a)%nat) (insert_count c l).
Proof.
  induction 1 as [|d r Hr IH Hall]; simpl; [repeat constructor|].
  destruct (Nat.leb_spec (snd d) (snd c)) as [Hle|Hgt].
  - constructor; [now constructor|]. constructor; [exact Hle|].
    eapply Forall_impl; [|exact Hall]. simpl. intros; lia.
  - constructor; [exact IH|].
    apply Forall_forall. intros x Hx.
    apply (Permutation_in _ (insert_count_perm c r)) in Hx.
    destruct Hx as [<-|Hx]; [lia|].
    rewrite Forall_forall in Hall. auto.
Qed.

Lemma sort_counts_sorted l :
  StronglySorted (fun a b => (snd b <= snd a)%nat) (sort_counts_desc l).
Proof.
  induction l as [|c r IH]; simpl; [constructor|].
  now apply insert_count_sorted.
Qed.

Lemma list_sum_perm l l' : Permutation l l' -> list_sum l = list_sum l'.
Proof. induction 1; simpl; lia. Qed.

(** What [.value_counts().sort_values(ascending=False)] lists. *)
Lemma sorted_counts col :
  let vc := sort_counts_desc (value_counts col) in
  NoDup (map fst vc) /\
  (forall k n, In (k, n) vc <->
     n = occurrences k col /\ (1 <= n)%nat) /\
  StronglySorted (fun a b => (snd b <= snd a)%nat) vc /\
  list_sum (map snd vc) = List.length (filter is_some col).
Proof.
  intros vc.
  assert (P : Permutation vc (count_from [] col)).
  { unfold vc, value_counts. now rewrite !sort_counts_perm. }
  destruct (count_from_spec col [] (NoDup_nil _) (Forall_nil _))
    as (H1 & H2 & H3 & H4 & H5).
  split; [|split; [|split]].
  - apply (Permutation_NoDup (Permutation_map fst (Permutation_sym P))), H1.
  - intros k n. split.
    + intros Hin. apply (Permutation_in _ P) in Hin.
      rewrite Forall_forall in H2. pose proof (H2 _ Hin) as Hpos.
      apply (count_of_In _ _ _ H1) in Hin. rewrite H3 in Hin.
      simpl in *. split; [lia|exact Hpos].
    + intros [-> Hpos]. apply (Permutation_in _ (Permutation_sym P)).
      replace (occurrences k col) with (count_of k (count_from [] col))
        by (rewrite H3; reflexivity).
      apply In_count_of. apply H4. now right.
  - apply sort_counts_sorted.
  - rewrite (list_sum_perm _ _ (Permutation_map snd P)), H5. reflexivity.
Qed.

(** X13: charts 3 and 4 list every position (team) that occurs in the
    column exactly once, with the exact number of its rows, which is at
    least 1; nothing else is listed, and the counts never increase
    along the list. *)
Theorem frequency_counts_exact df (team_full_name : list (option string)) :
  (NoDup (map fst (position_counts df)) /\
   (forall k n, In (k, n) (position_counts df) <->
      n = occurrences k (map position df) /\ (1 <= n)%nat) /\
   StronglySorted (fun a b => (snd b <= snd a)%nat) (position_counts df)) /\
  (NoDup (map fst (team_counts team_full_name)) /\
   (forall k n, In (k, n) (team_counts team_full_name) <->
      n = occurrences k team_full_name /\ (1 <= n)%nat) /\
   StronglySorted (fun a b => (snd b <= snd a)%nat)
     (team_counts team_full_name)).
Proof.
  split.
  - destruct (sorted_counts (map position df)) as (H1 & H2 & H3 & _). auto.
  - destruct (sorted_counts team_full_name) as (H1 & H2 & H3 & _). auto.
Qed.

(** X14: the bars of chart 3 add up to the number of rows that have a
    position; rows with an empty position cell are in no bar. *)
Theorem position_counts_total df :
  list_sum (map snd (position_counts df))
  = List.length (filter (fun p => is_some (position p)) df).
Proof.
  destruct (sorted_counts (map position df)) as (_ & _ & _ & H).
  unfold position_counts. rewrite H. clear H.
  induction df as [|p r IH]; simpl; [reflexivity|].
  destruct (position p); simpl; now rewrite IH.
Qed.

(** X15: the bars of chart 4 add up to the number of rows that have a
    team, and the reference line [team_counts.mean()] is NaN exactly
    when no row has one. *)
Theorem team_counts_total (team_full_name : list (option string)) :
  list_sum (map snd (team_counts team_full_name))
  = List.length (filter is_some team_full_name) /\
  (team_counts_mean team_full_name = None <->
   filter is_some team_full_name = []).
Proof.
  destruct (sorted_counts team_full_name) as (_ & Hin & _ & Htot).
  fold (team_counts team_full_name) in Hin, Htot.
  split; [exact Htot|].
  unfold team_counts_mean.
  destruct (team_counts team_full_name) as [|[k n] r].
  - simpl in *. split; [|reflexivity]. intros _.
    destruct (filter is_some team_full_name); [reflexivity|discriminate].
  - split; [discriminate|]. intros E. rewrite E in Htot.
    destruct (proj1 (Hin k n) (or_introl eq_refl)) as [_ Hpos].
    simpl in Htot. lia.
Qed.
